(** * grubby: the tree-walking evaluator of interpreter/vm/vm.go

    A shallow embedding of the evaluator ([executeWithContext]), of the
    program entry ([Run]) and of the methods that [NewVM] installs on the
    top-level receiver ([to_s], [require], [puts]), followed by the
    properties of the specification stated over that embedding.

    Go values of interface type may be [nil]: they are modelled as
    [option], with [None] for [nil].  Go maps are [gmap]s; the one-result
    lookup [m[k]] of a missing key gives the zero value, the two-result
    lookup [v, ok := m[k]] is [m !! k].  A Go runtime panic is the
    outcome [Panic]; nothing in the program recovers from one. *)

From Stdlib Require Import ZArith String List.
From stdpp Require Import base option gmap strings list.

Local Open Scope string_scope.
#[local] Set Warnings "-register-all".

(** ** The syntax tree (package ast)

    Only the node types and fields that vm.go reads are represented.
    [Unhandled] stands for every node type that the evaluator's type
    switch does not list. *)
Module ast.

(** A [float64] literal is only carried from the tree to [NewFloat]; it is
    kept as its IEEE-754 bit pattern. *)
Definition float64 := Z.

Inductive Node :=
| IfBlock (Condition : Node) (Body Else : list Node)
| FuncDecl (Name : string)
| SimpleString (Value : string)
| InterpolatedString (Value : string)
| Boolean (Value : bool)
| GlobalVariable (Name : string)
| ConstantInt (Value : Z)
| ConstantFloat (Value : float64)
| Symbol (Name : string)
| BareReference (Name : string)
| CallExpression (Target : option Node) (Func : string) (Args : list Node)
| Assignment (LHS RHS : Node)
| FileNameConstReference
| Begin (Body : list Node) (Rescue : list Node)
| Rescue (Exception_Class_Name : string) (Body : list Node)
| Unhandled (kind : string).

End ast.

(** ** Runtime values (package builtins)

    Modelled from the spec: package builtins is not among the sources.  A
    value is a string, an integer, a float, a symbol, a method, an error
    value or an object; the constructors are those that vm.go calls.  What a
    value does (its string form, its class, its methods) is left to the
    [Platform] below. *)
Module builtins.

(** The Go closures that become method bodies.  vm.go creates four of
    them; [native] stands for a method implemented inside package
    builtins. *)
Inductive Closure :=
| main_to_s
| main_require
| main_puts
| FuncDecl_stub
| native (id : nat).

Record Method := NewMethod { Method_Name : string; Method_body : Closure }.

(** [SymbolValue] carries the address of the allocation made by
    [NewSymbol]: two symbols are the same instance when their addresses
    are equal.  [ObjectValue] is a reference to an object whose state
    (method table, array members) belongs to package builtins. *)
Inductive Value :=
| StringValue (s : string)
| IntValue (n : Z)
| FloatValue (f : ast.float64)
| SymbolValue (addr : nat) (name : string)
| MethodValue (m : Method)
| NameError (name receiver class backtrace : string)
| NoMethodError (name receiver class backtrace : string)
| LoadError (message backtrace : string)
| ObjectValue (ref : nat).

(** Modelled from the spec: [NewSymbol] constructs a new Symbol; each call
    is an allocation, whose address is made explicit. *)
Definition NewSymbol (addr : nat) (name : string) : Value := SymbolValue addr name.

Definition NewString := StringValue.
Definition NewInt := IntValue.
Definition NewFloat := FloatValue.
Definition NewNameError := NameError.
Definition NewNoMethodError := NoMethodError.
Definition NewLoadError := LoadError.

End builtins.

Import ast builtins.

(** A Go [error]: the [ParseError] of vm.go, which has no method but
    [Error], or an error value of package builtins, which is a [Value]. *)
Inductive error :=
| ParseError (Filename : string)
| RubyError (v : Value).

Definition NewParseError := ParseError.

(** Effects on the outside world, recorded most recent first. *)
Inductive Event :=
| os_Open (path : string)
| ioutil_ReadAll (path : string)
| Stdout_Write (bytes : string)
| Printf_name_error (target : Value).

(** ** What vm.go imports

    Package builtins, the parser and the operating system are not part of
    the evaluator; it depends on them through this interface.  [World] is
    the state they own (method tables, array members, files). *)
Record Platform := {
  World : Type;
  (* Value.String() of anything but a string *)
  String_of : World -> Value -> string;
  (* Value.Class() *)
  Class_of : World -> Value -> Value;
  (* Value.Method(name): None when the lookup returns an error *)
  Method_of : World -> Value -> string -> option Method;
  AddMethod : Value -> Method -> World -> World;
  AddPrivateMethod : Value -> Method -> World -> World;
  (* Class.New() *)
  Class_New : Value -> World -> Value * World;
  (* value.( *Array ).Members(): None when the value is not an Array *)
  Array_Members : World -> Value -> option (list (option Value));
  (* Method.Execute of a method of package builtins: None when it panics *)
  native_Execute :
    nat -> list (option Value) -> World -> option (option Value * option error * World);
  NewArrayClass : World -> Value * World;
  NewGlobalObjectClass : World -> Value * World;
  NewProcessClass : World -> Value * World;
  NewTrueClass : World -> Value * World;
  NewFalseClass : World -> Value * World;
  NewNilClass : World -> Value * World;
  NewGlobalKernelClass : World -> Value * World;
  NewFileClass : World -> Value * World;
  world0 : World;
  (* parser.NewLexer, parser.RubyParse and parser.Statements: None when
     RubyParse returns a result other than 0 *)
  RubyParse : string -> option (list Node);
  filepath_Join : string -> string -> string;
  (* os.Open: true when it returns no error *)
  Open_ok : World -> string -> bool;
  (* ioutil.ReadAll of an opened file: None when it returns an error *)
  ReadAll : World -> string -> option string
}.
Existing Class Platform.

(** ** The call stack

    Modelled from the spec: the CallStack type of package vm (NewCallStack,
    Unshift, Shift, String) is not among the sources.  It is an ordered
    list of frame labels; push prepends, pop removes the front, and the
    rendering lists the frames from the innermost to the outermost. *)
Definition CallStack := list string.
Definition NewCallStack : CallStack := [].
Definition Unshift (label : string) (st : CallStack) : CallStack := label :: st.
Definition Shift (st : CallStack) : CallStack := tail st.
Definition CallStack_String (st : CallStack) : string := String.concat "
" st.

Section VM.
Context {P : Platform}.

(** ** The machine state

    The six fields of the Go struct, then what its closures capture and what
    lies outside it: [loadPath] is the local variable of [NewVM] that the
    require closure captures, [world] the state of the imported packages,
    [allocs] the number of symbols allocated so far, [trace] the effects
    performed so far. *)
Record vm := mkvm {
  currentFilename : string;
  ObjectSpace : gmap string (option Value);
  CurrentGlobals : gmap string (option Value);
  CurrentSymbols : gmap string (option Value);
  CurrentClasses : gmap string Value;
  stack : CallStack;
  loadPath : Value;
  world : World P;
  allocs : nat;
  trace : list Event
}.

Definition set_currentFilename (x : string) (s : vm) : vm :=
  mkvm x (ObjectSpace s) (CurrentGlobals s) (CurrentSymbols s) (CurrentClasses s)
       (stack s) (loadPath s) (world s) (allocs s) (trace s).
Definition set_ObjectSpace (x : gmap string (option Value)) (s : vm) : vm :=
  mkvm (currentFilename s) x (CurrentGlobals s) (CurrentSymbols s) (CurrentClasses s)
       (stack s) (loadPath s) (world s) (allocs s) (trace s).
Definition set_CurrentGlobals (x : gmap string (option Value)) (s : vm) : vm :=
  mkvm (currentFilename s) (ObjectSpace s) x (CurrentSymbols s) (CurrentClasses s)
       (stack s) (loadPath s) (world s) (allocs s) (trace s).
Definition set_stack (x : CallStack) (s : vm) : vm :=
  mkvm (currentFilename s) (ObjectSpace s) (CurrentGlobals s) (CurrentSymbols s)
       (CurrentClasses s) x (loadPath s) (world s) (allocs s) (trace s).
Definition set_world (x : World P) (s : vm) : vm :=
  mkvm (currentFilename s) (ObjectSpace s) (CurrentGlobals s) (CurrentSymbols s)
       (CurrentClasses s) (stack s) (loadPath s) x (allocs s) (trace s).
Definition log (ev : Event) (s : vm) : vm :=
  mkvm (currentFilename s) (ObjectSpace s) (CurrentGlobals s) (CurrentSymbols s)
       (CurrentClasses s) (stack s) (loadPath s) (world s) (allocs s) (ev :: trace s).

(** [returnValue = builtins.NewSymbol(name); vm.CurrentSymbols[name] =
    returnValue]: the new symbol lives at the next free address. *)
Definition intern (name : string) (s : vm) : Value * vm :=
  let v := NewSymbol (allocs s) name in
  (v, mkvm (currentFilename s) (ObjectSpace s) (CurrentGlobals s)
           (<[name := Some v]> (CurrentSymbols s)) (CurrentClasses s)
           (stack s) (loadPath s) (world s) (S (allocs s)) (trace s)).

(** One-result map lookup. *)
Definition map_get (m : gmap string (option Value)) (k : string) : option Value :=
  default None (m !! k).

(** Modelled from the spec: [Value.String()].  The string form of a string
    value is its text (the unit name that require compares with "rubygems"
    and joins to a directory is the text of its argument); the string form of
    any other value is the platform's. *)
Definition Value_String (w : World P) (v : Value) : string :=
  match v with
  | StringValue s => s
  | _ => String_of P w v
  end.

(** [Value.Class()]. *)
Definition Value_Class (w : World P) (v : Value) : Value := Class_of P w v.

(** [vm.CurrentClasses[name].New()]: a missing class is a nil interface,
    whose method call panics. *)
Definition new_instance (name : string) (s : vm) : option (Value * vm) :=
  match CurrentClasses s !! name with
  | None => None
  | Some c => let '(v, w) := Class_New P c (world s) in Some (v, set_world w s)
  end.

(** The result of a Go function that returns [(builtins.Value, error)]. *)
Definition Result : Type := option Value * option error.

(** How a call ends: it returns [a] in state [s], it panics, or the model
    runs out of fuel. *)
Inductive Outcome (A : Type) :=
| Ret (a : A) (s : vm)
| Panic
| OutOfFuel.
Arguments Ret {A} a s.
Arguments Panic {A}.
Arguments OutOfFuel {A}.

(** ** The methods installed by [NewVM] *)

(** [to_s]: returns the string "main". *)
Definition to_s (args : list (option Value)) (s : vm) : Outcome Result :=
  Ret (Some (NewString "main"), None) s.

(** [puts]: writes the string form of each argument and a newline to
    standard output.  A nil argument has no [String] method to call. *)
Fixpoint puts (args : list (option Value)) (s : vm) : Outcome Result :=
  match args with
  | [] => Ret (None, None) s
  | None :: _ => Panic
  | Some arg :: rest =>
      puts rest (log (Stdout_Write (Value_String (world s) arg ++ "
")) s)
  end.

(** What [require] does with the contents of the file it has read: the
    unit name becomes the name the file was opened under, the contents are
    run, and the deferred function puts the previous unit name back.  [run]
    is [vm.Run]. *)
Definition run_unit (run : string -> vm -> Outcome Result) (fullPath contents : string)
    (s : vm) : Outcome Result :=
  let originalName := currentFilename s in
  match run contents (set_currentFilename fullPath s) with
  | Ret (_, rubyErr) s1 =>
      match new_instance "True" s1 with
      | Some (v, s2) => Ret (Some v, rubyErr) (set_currentFilename originalName s2)
      | None => Panic
      end
  | Panic => Panic
  | OutOfFuel => OutOfFuel
  end.

(** The loop of [require] over the members of the load path.  A member
    that is not a string fails the type assertion; a path that does not open
    is skipped, and so is a file that opens but whose contents cannot be
    read; the first file read is run. *)
Fixpoint require_search (run : string -> vm -> Outcome Result) (fileName : string)
    (members : list (option Value)) (s : vm) : Outcome Result :=
  match members with
  | [] =>
      let errorMessage := "LoadError: cannot load such file -- " ++ fileName in
      Ret (None, Some (RubyError (NewLoadError errorMessage (CallStack_String (stack s))))) s
  | Some (StringValue path) :: rest =>
      let fullPath := filepath_Join P path (fileName ++ ".rb") in
      let s1 := log (os_Open fullPath) s in
      if Open_ok P (world s1) fullPath then
        let s2 := log (ioutil_ReadAll fullPath) s1 in
        match ReadAll P (world s2) fullPath with
        | Some contents => run_unit run fullPath contents s2
        | None => require_search run fileName rest s2
        end
      else require_search run fileName rest s1
  | _ :: _ => Panic
  end.

(** [require]: the first argument is indexed and asserted to be a string
    without any check. *)
Definition require (run : string -> vm -> Outcome Result)
    (args : list (option Value)) (s : vm) : Outcome Result :=
  match args with
  | Some (StringValue fileName) :: _ =>
      if String.eqb fileName "rubygems" then
        match new_instance "False" s with
        | Some (v, s1) => Ret (Some v, None) s1
        | None => Panic
        end
      else
        match Array_Members P (world s) (loadPath s) with
        | Some members => require_search run fileName members s
        | None => Panic
        end
  | _ => Panic
  end.

(** [Method.Execute]. *)
Definition Execute (run : string -> vm -> Outcome Result) (method : Method)
    (args : list (option Value)) (s : vm) : Outcome Result :=
  match Method_body method with
  | main_to_s => to_s args s
  | main_require => require run args s
  | main_puts => puts args s
  | FuncDecl_stub => Ret (None, None) s
  | native id =>
      match native_Execute P id args (world s) with
      | Some (v, e, w) => Ret (v, e) (set_world w s)
      | None => Panic
      end
  end.

(** ** Program entry

    [exec] is [vm.executeWithContext].  The frame "main" is pushed after a
    successful parse and popped by the deferred [Shift]. *)
Definition Run (exec : list Node -> option Value -> vm -> Outcome Result)
    (input : string) (s : vm) : Outcome Result :=
  match RubyParse P input with
  | None => Ret (None, Some (NewParseError (currentFilename s))) s
  | Some statements =>
      let main := map_get (ObjectSpace s) "main" in
      match exec statements main (set_stack (Unshift "main" (stack s)) s) with
      | Ret r s1 => Ret r (set_stack (Shift (stack s1)) s1)
      | Panic => Panic
      | OutOfFuel => OutOfFuel
      end
  end.

(** ** The evaluator

    [executeWithContext] is a loop over the statements with two local
    variables, [returnValue] and [returnErr], that the cases assign.  What
    one iteration does is a [Flow]: go on with the next statement ([Next]),
    leave the function with a [return] statement ([Return]), panic, or run
    out of fuel in a nested call.  [defers] counts the [defer
    vm.stack.Shift()] statements the iteration has executed: Go runs deferred
    calls when the function returns, not when the iteration ends. *)
Inductive Flow :=
| Next (returnValue : option Value) (returnErr : option error) (defers : nat) (s : vm)
| Return (value : option Value) (err : option error) (defers : nat) (s : vm)
| Fault
| Exhausted.

Section Statement.
Variable exec : list Node -> option Value -> vm -> Outcome Result.

(** The condition of an [IfBlock] is inspected, not evaluated. *)
Definition truthy (Condition : Node) : bool :=
  match Condition with
  | Boolean Value => Value
  | BareReference Name => String.eqb Name "nil"
  | _ => true
  end.

(** The loop over [callExpr.Args]: each argument is evaluated as a
    one-statement sequence against the caller's context; the first error
    ends the loop. *)
Fixpoint eval_args (Args : list Node) (context : option Value)
    (args : list (option Value)) (s : vm) : Outcome (list (option Value) + error) :=
  match Args with
  | [] => Ret (inl args) s
  | astArgument :: rest =>
      match exec [astArgument] context s with
      | Ret (_, Some err) s1 => Ret (inr err) s1
      | Ret (arg, None) s1 => eval_args rest context (args ++ [arg])%list s1
      | Panic => Panic
      | OutOfFuel => OutOfFuel
      end
  end.

(** The loop over [begin.Rescue].  [rubyErr] is the error of the body, the
    one every clause is compared with; [err] is the error that will
    propagate, replaced by the error of each matching clause that fails.  The
    result is the final [err]. *)
Fixpoint rescue_loop (rubyErr : Value) (clauses : list Node) (context : option Value)
    (err : error) (s : vm) : Outcome (option error) :=
  match clauses with
  | [] => Ret (Some err) s
  | Rescue Exception_Class_Name Body :: rest =>
      if String.eqb Exception_Class_Name (Value_String (world s) rubyErr) then
        match exec Body context s with
        | Ret (_, None) s1 => Ret None s1
        | Ret (_, Some err1) s1 => rescue_loop rubyErr rest context err1 s1
        | Panic => Panic
        | OutOfFuel => OutOfFuel
        end
      else rescue_loop rubyErr rest context err s
  | _ :: _ => Panic
  end.

(** [NewNameError(name, v.String(), v.Class().String(), vm.stack.String())]. *)
Definition name_error (name : string) (v : Value) (s : vm) : error :=
  RubyError (NewNameError name (Value_String (world s) v)
               (Value_String (world s) (Value_Class (world s) v))
               (CallStack_String (stack s))).

Definition no_method_error (name : string) (nilValue : Value) (s : vm) : error :=
  RubyError (NewNoMethodError name (Value_String (world s) nilValue)
               (Value_String (world s) (Value_Class (world s) nilValue))
               (CallStack_String (stack s))).

(** The part of the [CallExpression] case that follows the evaluation of
    the target. *)
Definition call (target : option Value) (Func : string) (Args : list Node)
    (context : option Value) (s : vm) : Flow :=
  match target with
  | None =>
      match new_instance "Nil" s with
      | Some (nilValue, s1) => Return None (Some (no_method_error Func nilValue s1)) 0 s1
      | None => Fault
      end
  | Some target =>
      match Method_of P (world s) target Func with
      | None =>
          let s1 := log (Printf_name_error target) s in
          Return None (Some (name_error Func target s1)) 0 s1
      | Some method =>
          match eval_args Args context [] s with
          | Ret (inr err) s1 => Return None (Some err) 0 s1
          | Ret (inl args) s1 =>
              let s2 := set_stack (Unshift (Method_Name method) (stack s1)) s1 in
              match Execute (Run exec) method args s2 with
              | Ret (returnValue, Some returnErr) s3 => Return returnValue (Some returnErr) 1 s3
              | Ret (returnValue, None) s3 => Next returnValue None 1 s3
              | Panic => Fault
              | OutOfFuel => Exhausted
              end
          | Panic => Fault
          | OutOfFuel => Exhausted
          end
      end
  end.

(** One iteration of the loop: the type switch on [statement]. *)
Definition step (statement : Node) (context : option Value)
    (returnValue : option Value) (returnErr : option error) (s : vm) : Flow :=
  match statement with
  | IfBlock Condition Body Else =>
      match exec (if truthy Condition then Body else Else) context s with
      | Ret (v, e) s1 => Next v e 0 s1
      | Panic => Fault
      | OutOfFuel => Exhausted
      end
  | FuncDecl Name =>
      let method := NewMethod Name FuncDecl_stub in
      match map_get (ObjectSpace s) "Kernel" with
      | Some kernel =>
          Next (Some (MethodValue method)) returnErr 0
               (set_world (AddPrivateMethod P kernel method (world s)) s)
      | None => Fault
      end
  | SimpleString Value => Next (Some (NewString Value)) returnErr 0 s
  | InterpolatedString Value => Next (Some (NewString Value)) returnErr 0 s
  | Boolean Value =>
      match new_instance (if Value then "True" else "False") s with
      | Some (v, s1) => Next (Some v) returnErr 0 s1
      | None => Fault
      end
  | GlobalVariable Name => Next (map_get (CurrentGlobals s) Name) returnErr 0 s
  | ConstantInt Value => Next (Some (NewInt Value)) returnErr 0 s
  | ConstantFloat Value => Next (Some (NewFloat Value)) returnErr 0 s
  | Symbol Name =>
      match CurrentSymbols s !! Name with
      | None => let '(v, s1) := intern Name s in Next (Some v) returnErr 0 s1
      | Some maybe => Next maybe returnErr 0 s
      end
  | BareReference Name =>
      match ObjectSpace s !! Name with
      | Some maybe => Next maybe returnErr 0 s
      | None =>
          match context with
          | Some c => Next returnValue (Some (name_error Name c s)) 0 s
          | None => Fault
          end
      end
  | CallExpression Target Func Args =>
      match Target with
      | Some t =>
          match exec [t] context s with
          | Ret (_, Some err) s1 => Return None (Some err) 0 s1
          | Ret (target, None) s1 => call target Func Args context s1
          | Panic => Fault
          | OutOfFuel => Exhausted
          end
      | None => call context Func Args context s
      end
  | Assignment LHS RHS =>
      match exec [RHS] context s with
      | Ret (_, Some err) s1 => Return None (Some err) 0 s1
      | Ret (value, None) s1 =>
          match LHS with
          | BareReference Name =>
              Next returnValue returnErr 0
                   (set_ObjectSpace (<[Name := value]> (ObjectSpace s1)) s1)
          | GlobalVariable Name =>
              Next returnValue returnErr 0
                   (set_CurrentGlobals (<[Name := value]> (CurrentGlobals s1)) s1)
          | _ => Fault
          end
      | Panic => Fault
      | OutOfFuel => Exhausted
      end
  | FileNameConstReference => Next (Some (NewString (currentFilename s))) returnErr 0 s
  | Begin Body clauses =>
      match exec Body context s with
      | Ret (_, None) s1 => Next returnValue returnErr 0 s1
      | Ret (_, Some (RubyError rubyErr as err)) s1 =>
          match rescue_loop rubyErr clauses context err s1 with
          | Ret None s2 => Next returnValue returnErr 0 s2
          | Ret (Some err1) s2 => Next returnValue (Some err1) 0 s2
          | Panic => Fault
          | OutOfFuel => Exhausted
          end
      | Ret (_, Some (ParseError _)) _ => Fault
      | Panic => Fault
      | OutOfFuel => Exhausted
      end
  | Rescue _ _ => Fault
  | Unhandled _ => Fault
  end.

(** The [for] loop, up to the point where the function is left: by a
    [return] statement inside an iteration, or after the last statement.
    [defers] is the number of deferred calls pending. *)
Fixpoint iterate (statements : list Node) (context : option Value)
    (returnValue : option Value) (returnErr : option error) (defers : nat) (s : vm)
    : Flow :=
  match statements with
  | [] => Next returnValue returnErr defers s
  | statement :: rest =>
      match step statement context returnValue returnErr s with
      | Next v e d s1 => iterate rest context v e (d + defers) s1
      | Return v e d s1 => Return v e (d + defers) s1
      | Fault => Fault
      | Exhausted => Exhausted
      end
  end.

(** The deferred [Shift]s run when the function returns. *)
Definition run_defers (defers : nat) (s : vm) : vm :=
  set_stack (Nat.iter defers Shift (stack s)) s.

(** The body of [executeWithContext]: the loop, [return returnValue,
    returnErr] after it, and the deferred calls. *)
Definition loop (statements : list Node) (context : option Value)
    (returnValue : option Value) (returnErr : option error) (defers : nat) (s : vm)
    : Outcome Result :=
  match iterate statements context returnValue returnErr defers s with
  | Next v e d s1 | Return v e d s1 => Ret (v, e) (run_defers d s1)
  | Fault => Panic
  | Exhausted => OutOfFuel
  end.

End Statement.

(** [fuel] bounds the depth of nested calls of [executeWithContext], which
    the Go program does not bound: a unit can require itself. *)
Fixpoint executeWithContext (fuel : nat) (statements : list Node)
    (context : option Value) (s : vm) : Outcome Result :=
  match fuel with
  | 0 => OutOfFuel
  | S fuel => loop (executeWithContext fuel) statements context None None 0 s
  end.

(** [vm.Run] as the driver calls it. *)
Definition vm_Run (fuel : nat) (input : string) (s : vm) : Outcome Result :=
  Run (executeWithContext fuel) input s.

(** ** Construction *)

#[local] Instance Value_inhabited : Inhabited Value := populate (ObjectValue 0).

(** [registerClasses]: the six constructors, in the order of the map
    literal. *)
Definition registerClasses (w : World P) : gmap string Value * World P :=
  let '(array, w) := NewArrayClass P w in
  let '(object, w) := NewGlobalObjectClass P w in
  let '(process, w) := NewProcessClass P w in
  let '(true_, w) := NewTrueClass P w in
  let '(false_, w) := NewFalseClass P w in
  let '(nil_, w) := NewNilClass P w in
  (<["Nil" := nil_]> (<["False" := false_]> (<["True" := true_]>
     (<["Process" := process]> (<["Object" := object]> (<["Array" := array]> ∅))))), w).

Definition NewVM (name : string) : vm :=
  let '(classes, w) := registerClasses (world0 P) in
  let array := classes !!! "Array" in
  let '(loadPath, w) := Class_New P array w in
  let globals : gmap string (option Value) :=
    <[":" := Some loadPath]> (<["LOAD_PATH" := Some loadPath]> ∅) in
  let objectClass := classes !!! "Object" in
  let '(kernel, w) := NewGlobalKernelClass P w in
  let '(file, w) := NewFileClass P w in
  let '(argv, w) := Class_New P array w in
  let '(main, w) := Class_New P objectClass w in
  let w := AddMethod P main (NewMethod "to_s" main_to_s) w in
  let w := AddMethod P main (NewMethod "require" main_require) w in
  let w := AddMethod P main (NewMethod "puts" main_puts) w in
  let space : gmap string (option Value) :=
    <["main" := Some main]> (<["ARGV" := Some argv]> (<["File" := Some file]>
      (<["Kernel" := Some kernel]> (<["Object" := Some objectClass]> ∅)))) in
  mkvm name space globals ∅ classes NewCallStack loadPath w 0 [].

(** ** The accessors of the VM interface *)

(** [MustGet]: the object space first, then the globals, else nil. *)
Definition MustGet (key : string) (s : vm) : option Value :=
  match ObjectSpace s !! key with
  | Some val => val
  | None =>
      match CurrentGlobals s !! key with
      | Some val => val
      | None => None
      end
  end.

(** [Get]: as [MustGet], with an error for a key that neither map holds.
    The error is made by [errors.New]; it is represented by its message. *)
Definition Get (key : string) (s : vm) : option Value * option string :=
  match ObjectSpace s !! key with
  | Some val => (val, None)
  | None =>
      match CurrentGlobals s !! key with
      | Some val => (val, None)
      | None => (None, Some ("'" ++ key ++ "' is undefined"))
      end
  end.

(** [Set] ([Set] is a keyword here): binds the key in the object space. *)
Definition vm_Set (key : string) (value : option Value) (s : vm) : vm :=
  set_ObjectSpace (<[key := value]> (ObjectSpace s)) s.

Definition Symbols (s : vm) : gmap string (option Value) := CurrentSymbols s.
Definition Globals (s : vm) : gmap string (option Value) := CurrentGlobals s.
Definition Classes (s : vm) : gmap string Value := CurrentClasses s.

(** [ParseError.Error]. *)
Definition ParseError_Error (Filename : string) : string := "parse error".

End VM.

Arguments Ret {P A} a s.
Arguments Panic {P A}.
Arguments OutOfFuel {P A}.

(** ** A small platform

    An implementation of the interface on which programs can be run: objects
    are cells of a heap, each with a class, a method table and, for arrays,
    members; a method is looked up on the object and then on its class.  The
    disk gives for a path the contents of the file, or [None] for a file that
    opens but cannot be read (a directory); the grammar gives the statements
    of a source text.  The only native method is [push] of arrays, bound to
    its receiver.  The string forms and the classes of immediate values are
    those the examples need; no theorem of the evaluator depends on them. *)
Module Reference.

Record object := mkobject {
  label : string;
  class : nat;
  methods : list Method;
  members : option (list (option Value))
}.

Record world := mkworld {
  heap : list object;
  disk : list (string * option string)
}.

Fixpoint assoc {A} (k : string) (l : list (string * A)) : option A :=
  match l with
  | [] => None
  | (k', a) :: l => if String.eqb k k' then Some a else assoc k l
  end.

Definition alloc (o : object) (w : world) : Value * world :=
  (ObjectValue (length (heap w)), mkworld (heap w ++ [o])%list (disk w)).

Definition update (r : nat) (f : object -> object) (w : world) : world :=
  mkworld (alter f r (heap w)) (disk w).

Definition new_class (name : string) (w : world) : Value * world :=
  alloc (mkobject name (length (heap w)) [] None) w.

Definition new (c : Value) (w : world) : Value * world :=
  match c with
  | ObjectValue r =>
      match heap w !! r with
      | Some k =>
          alloc (mkobject ("#<" ++ label k ++ ">") r []
                   (if String.eqb (label k) "Array" then Some [] else None)) w
      | None => alloc (mkobject "#<>" r [] None) w
      end
  | _ => alloc (mkobject "#<>" 0 [] None) w
  end.

Definition string_of (w : world) (v : Value) : string :=
  match v with
  | StringValue s => s
  | SymbolValue _ name => name
  | MethodValue m => Method_Name m
  | NameError _ _ _ _ => "NameError"
  | NoMethodError _ _ _ _ => "NoMethodError"
  | LoadError _ _ => "LoadError"
  | ObjectValue r => from_option label "" (heap w !! r)
  | IntValue _ => "Integer"
  | FloatValue _ => "Float"
  end.

Definition class_of (w : world) (v : Value) : Value :=
  match v with
  | ObjectValue r => ObjectValue (from_option class r (heap w !! r))
  | _ => ObjectValue 1
  end.

Definition find_method (name : string) (ms : list Method) : option Method :=
  List.find (fun m => String.eqb (Method_Name m) name) ms.

Definition method_of (w : world) (v : Value) (name : string) : option Method :=
  match v with
  | ObjectValue r =>
      match heap w !! r with
      | Some o =>
          match find_method name (methods o) with
          | Some m => Some m
          | None =>
              if String.eqb name "push" then
                match members o with
                | Some _ => Some (NewMethod "push" (native r))
                | None => None
                end
              else from_option (fun k => find_method name (methods k)) None (heap w !! class o)
          end
      | None => None
      end
  | _ => None
  end.

Definition add_method (v : Value) (m : Method) (w : world) : world :=
  match v with
  | ObjectValue r => update r (fun o => mkobject (label o) (class o) (m :: methods o) (members o)) w
  | _ => w
  end.

Definition array_members (w : world) (v : Value) : option (list (option Value)) :=
  match v with
  | ObjectValue r => heap w !! r ≫= members
  | _ => None
  end.

Definition push (r : nat) (args : list (option Value)) (w : world)
    : option (option Value * option error * world) :=
  Some (Some (ObjectValue r), None,
        update r (fun o => mkobject (label o) (class o) (methods o)
                             ((fun l => (l ++ args)%list) <$> members o)) w).

Definition join (dir name : string) : string :=
  if String.eqb dir "" then name else dir ++ "/" ++ name.

Definition platform (files : list (string * option string))
    (sources : list (string * list Node)) : Platform := {|
  World := world;
  String_of := string_of;
  Class_of := class_of;
  Method_of := method_of;
  AddMethod := add_method;
  AddPrivateMethod := add_method;
  Class_New := new;
  Array_Members := array_members;
  native_Execute := push;
  NewArrayClass := new_class "Array";
  NewGlobalObjectClass := new_class "Object";
  NewProcessClass := new_class "Process";
  NewTrueClass := new_class "True";
  NewFalseClass := new_class "False";
  NewNilClass := new_class "Nil";
  NewGlobalKernelClass := new_class "Kernel";
  NewFileClass := new_class "File";
  world0 := mkworld [] files;
  RubyParse := fun input => assoc input sources;
  filepath_Join := join;
  Open_ok := fun w path => bool_decide (is_Some (assoc path (disk w)));
  ReadAll := fun w path => mjoin (assoc path (disk w))
|}.

End Reference.

(** * A concrete machine

    A machine on the small platform: the file /a/foo.rb opens but cannot be
    read, /b/foo.rb holds a unit made of one file-name constant.  The
    grammar knows that unit and one two-statement program. *)
Definition files : list (string * option string) :=
  [("/a/foo.rb", None); ("/b/foo.rb", Some "__FILE__")].

Definition sources : list (string * list Node) :=
  [("__FILE__", [FileNameConstReference]);
   ("puts 'hello'; undefined",
    [CallExpression None "puts" [SimpleString "hello"]; BareReference "undefined"])].

Definition host : Platform := Reference.platform files sources.

Definition booted : @vm host := @NewVM host "main.rb".

Definition main : option Value := map_get (ObjectSpace booted) "main".

Definition state_of (o : Outcome Result) : vm :=
  match o with
  | Ret _ s => s
  | _ => booted
  end.

(** The machine after the two directories were pushed on the load path. *)
Definition searching : vm :=
  state_of (executeWithContext 2
    [CallExpression (Some (GlobalVariable ":")) "push" [SimpleString "/a"; SimpleString "/b"]]
    main booted).

(** The machine after the symbols a and b were evaluated. *)
Definition two_symbols : @vm host :=
  state_of (executeWithContext 1 [Symbol "a"; Symbol "b"] main booted).

(** A second machine: its one file, /lib/bad.rb, holds a text that does
    not parse, and /lib is on the load path. *)
Definition broken : Platform := Reference.platform [("/lib/bad.rb", Some "def")] [].

Definition broken_searching : @vm broken :=
  match
    @executeWithContext broken 2
      [CallExpression (Some (GlobalVariable ":")) "push" [SimpleString "/lib"]]
      (Some (ObjectValue 10)) (@NewVM broken "main.rb")
  with
  | Ret _ s => s
  | _ => @NewVM broken "main.rb"
  end.

(** * Notions used in the statements *)
Section Notions.
Context {P : Platform}.

Implicit Types (s : vm) (context : option Value) (statements : list Node).
Implicit Types (exec : list Node -> option Value -> vm -> Outcome Result).

(** The symbol table is well formed when every entry is a symbol of the
    name it is filed under, allocated earlier, at an address that no other
    entry has. *)
Definition interned s : Prop :=
  forall name v, CurrentSymbols s !! name = Some v ->
    exists addr, v = Some (SymbolValue addr name) /\ addr < allocs s /\
      forall name', CurrentSymbols s !! name' = Some (Some (SymbolValue addr name')) ->
        name' = name.

(** [kept s s']: from [s] to [s'] the unit name, the class table and the
    load path object are the same, and the symbol table has only grown. *)
Record kept s s' : Prop := {
  kept_currentFilename : currentFilename s' = currentFilename s;
  kept_CurrentClasses : CurrentClasses s' = CurrentClasses s;
  kept_loadPath : loadPath s' = loadPath s;
  kept_CurrentSymbols : CurrentSymbols s ⊆ CurrentSymbols s';
  kept_interned : interned s -> interned s'
}.

(** [frame d s s']: moreover the call stack of [s'] is that of [s] under
    [d] frames still to be popped. *)
Definition frame (d : nat) s s' : Prop :=
  kept s s' /\ Nat.iter d Shift (stack s') = stack s.

(** A call that returns, an iteration that goes on or returns, the
    evaluator and a top-level run do so within the frame. *)
Definition outcome_framed {A} s (o : Outcome A) : Prop :=
  match o with
  | Ret _ s' => frame 0 s s'
  | _ => True
  end.

Definition flow_framed s (fl : Flow) : Prop :=
  match fl with
  | Next _ _ d s' | Return _ _ d s' => frame d s s'
  | _ => True
  end.

Definition framed exec : Prop :=
  forall statements context s, outcome_framed s (exec statements context s).

Definition run_framed (run : string -> vm -> Outcome Result) : Prop :=
  forall input s, outcome_framed s (run input s).

(** Whether the argument list of [require] starts with a string. *)
Definition starts_with_string (args : list (option Value)) : bool :=
  match args with
  | Some (StringValue _) :: _ => true
  | _ => false
  end.

(** The two statement kinds that assign [returnErr] from the result of a
    call: they overwrite an error recorded earlier, with [nil] when the call
    has none. *)
Definition assigns_returnErr (statement : Node) : bool :=
  match statement with
  | IfBlock _ _ _ | CallExpression _ _ _ => true
  | _ => false
  end.

(** A rescue clause that the loop passes over: its class name differs from
    the string form of the error. *)
Definition passes_over (w : World P) (rubyErr : Value) (clause : Node) : bool :=
  match clause with
  | Rescue Exception_Class_Name _ =>
      negb (String.eqb Exception_Class_Name (Value_String w rubyErr))
  | _ => false
  end.

(** A load path member that the search goes past: a directory whose file
    does not open, or opens and cannot be read. *)
Definition skipped (w : World P) (fileName : string) (member : option Value) : bool :=
  match member with
  | Some (StringValue path) =>
      let fullPath := filepath_Join P path (fileName ++ ".rb") in
      negb (Open_ok P w fullPath) || negb (bool_decide (is_Some (ReadAll P w fullPath)))
  | _ => false
  end.

(** The state after the search has gone past [members]: each file was
    opened and, when that succeeded, read; nothing else happened. *)
Fixpoint probed (fileName : string) (members : list (option Value)) (s : vm) : vm :=
  match members with
  | Some (StringValue path) :: rest =>
      let fullPath := filepath_Join P path (fileName ++ ".rb") in
      let s1 := log (os_Open fullPath) s in
      probed fileName rest
        (if Open_ok P (world s1) fullPath then log (ioutil_ReadAll fullPath) s1 else s1)
  | _ => s
  end.

(** Two symbols are one instance when they come from one allocation. *)
Definition same_instance (v v' : Value) : Prop :=
  match v, v' with
  | SymbolValue addr _, SymbolValue addr' _ => addr = addr'
  | _, _ => False
  end.

(** [later s s']: the machine gets from [s] to [s'] by evaluations that
    return and by top-level runs. *)
Inductive later : vm -> vm -> Prop :=
| later_now s : later s s
| later_evaluation fuel statements context r s s1 s2 :
    executeWithContext fuel statements context s = Ret r s1 -> later s1 s2 -> later s s2
| later_Run fuel input r s s1 s2 :
    vm_Run fuel input s = Ret r s1 -> later s1 s2 -> later s s2.

(** A statement in which no call expression occurs, at any depth.  The
    condition of an [IfBlock] and the target of an [Assignment] are never
    evaluated and do not count. *)
Fixpoint call_free (statement : Node) : bool :=
  match statement with
  | IfBlock _ Body Else => forallb call_free Body && forallb call_free Else
  | CallExpression _ _ _ => false
  | Assignment _ RHS => call_free RHS
  | Begin Body clauses => forallb call_free Body && forallb call_free clauses
  | Rescue _ Body => forallb call_free Body
  | _ => true
  end.


End Notions.

(** * Properties of the evaluator *)
Section Properties.
Context {P : Platform}.

Implicit Types (s : vm) (context : option Value) (statements : list Node).
Implicit Types (exec : list Node -> option Value -> vm -> Outcome Result).

Lemma run_defers_0 s : run_defers 0 s = s.
Proof. by destruct s. Qed.

Lemma executeWithContext_S fuel statements context s :
  executeWithContext (S fuel) statements context s
  = loop (executeWithContext fuel) statements context None None 0 s.
Proof. reflexivity. Qed.

(** A sequence of one statement that goes on to the next iteration returns
    what the statement assigned. *)
Lemma loop_single_Next exec statement context rv re v e s s1 :
  step exec statement context rv re s = Next v e 0 s1 ->
  loop exec [statement] context rv re 0 s = Ret (v, e) s1.
Proof. intros H. unfold loop. simpl. rewrite H. simpl. by rewrite run_defers_0. Qed.

(** ** What every evaluation leaves as it found it *)

Lemma kept_refl s : kept s s.
Proof. by split. Qed.

Lemma kept_trans s s1 s2 : kept s s1 -> kept s1 s2 -> kept s s2.
Proof.
  intros [] []. split; try congruence; [by etrans | auto].
Qed.

Lemma frame_refl s : frame 0 s s.
Proof. split; [apply kept_refl | done]. Qed.

Lemma frame_trans d1 d2 s s1 s2 :
  frame d1 s s1 -> frame d2 s1 s2 -> frame (d2 + d1) s s2.
Proof.
  intros [K1 S1] [K2 S2]. split; [by eapply kept_trans |].
  rewrite Nat.add_comm, Nat.iter_add. by rewrite S2.
Qed.

Lemma frame_trans_0 d s s1 s2 : frame 0 s s1 -> frame d s1 s2 -> frame d s s2.
Proof. intros H1 H2. rewrite <- (Nat.add_0_r d). by eapply frame_trans. Qed.

Lemma frame_set_world w s : frame 0 s (set_world w s).
Proof. by repeat split. Qed.

Lemma frame_log ev s : frame 0 s (log ev s).
Proof. by repeat split. Qed.

Lemma frame_set_ObjectSpace m s : frame 0 s (set_ObjectSpace m s).
Proof. by repeat split. Qed.

Lemma frame_set_CurrentGlobals m s : frame 0 s (set_CurrentGlobals m s).
Proof. by repeat split. Qed.

Lemma frame_push label s : frame 1 s (set_stack (Unshift label (stack s)) s).
Proof. by repeat split. Qed.

Lemma frame_pop d s s1 : frame (S d) s s1 -> frame d s (set_stack (Shift (stack s1)) s1).
Proof.
  intros [[] Hst]. repeat split; try done.
  simpl in *. rewrite <- Hst. clear. induction d; simpl; congruence.
Qed.

Lemma frame_run_defers d s s1 : frame d s s1 -> frame 0 s (run_defers d s1).
Proof. intros [[] Hst]. by repeat split. Qed.

Lemma frame_new_instance name s v s1 : new_instance name s = Some (v, s1) -> frame 0 s s1.
Proof.
  unfold new_instance. destruct (CurrentClasses s !! name); [|done].
  destruct (Class_New _ _ _). intros [= _ <-]. apply frame_set_world.
Qed.

Lemma interned_intern name s :
  CurrentSymbols s !! name = None -> interned s -> interned (intern name s).2.
Proof.
  intros Hnone Hin n v. simpl. destruct (decide (name = n)) as [<-|Hne].
  - rewrite lookup_insert_eq. intros [= <-]. exists (allocs s).
    split; [done|]. split; [lia|]. intros n'.
    destruct (decide (name = n')) as [|Hne]; [done|].
    rewrite lookup_insert_ne by done. intros H.
    destruct (Hin _ _ H) as (a & [= Ha] & Hlt & _). lia.
  - rewrite lookup_insert_ne by done. intros H.
    destruct (Hin _ _ H) as (a & -> & Hlt & Huniq). exists a.
    split; [done|]. split; [lia|]. intros n'.
    destruct (decide (name = n')) as [<-|Hne'].
    + rewrite lookup_insert_eq. intros [= Ha]. lia.
    + rewrite lookup_insert_ne by done. apply Huniq.
Qed.

Lemma frame_intern name s :
  CurrentSymbols s !! name = None -> frame 0 s (intern name s).2.
Proof.
  intros Hnone. repeat split; try done.
  - simpl. by apply insert_subseteq.
  - by apply interned_intern.
Qed.

Lemma frame_restore_filename d x s s1 :
  frame d (set_currentFilename x s) s1 ->
  frame d s (set_currentFilename (currentFilename s) s1).
Proof. intros [[] Hst]. by repeat split. Qed.

Lemma puts_framed args s : outcome_framed s (puts args s).
Proof.
  revert s. induction args as [|[arg|] args IH]; intros s; simpl; [apply frame_refl | | done].
  specialize (IH (log (Stdout_Write (Value_String (world s) arg ++ "
")) s)).
  destruct (puts args _); [|done..]. simpl in *.
  eapply frame_trans_0; [apply frame_log | done].
Qed.

Lemma run_unit_framed run fullPath contents s :
  run_framed run -> outcome_framed s (run_unit run fullPath contents s).
Proof.
  intros Hrun. unfold run_unit.
  pose proof (Hrun contents (set_currentFilename fullPath s)) as Hf.
  destruct (run contents _) as [[v rubyErr] s3| |]; [|done..].
  destruct (new_instance "True" s3) as [[v' s4]|] eqn:Hnew; [|done].
  simpl in *. apply frame_new_instance in Hnew.
  exact (frame_restore_filename _ _ _ _ (frame_trans_0 _ _ _ _ Hf Hnew)).
Qed.

Lemma require_search_framed run fileName members s :
  run_framed run -> outcome_framed s (require_search run fileName members s).
Proof.
  intros Hrun. revert s.
  induction members as [|m members IH]; intros s; [apply frame_refl|].
  destruct m as [[path| | | | | | | |]|]; simpl; try done.
  set (fullPath := filepath_Join P path (fileName ++ ".rb")).
  destruct (Open_ok _ _ _).
  - destruct (ReadAll _ _ _) as [contents|].
    + pose proof (run_unit_framed run fullPath contents
                    (log (ioutil_ReadAll fullPath) (log (os_Open fullPath) s)) Hrun) as Hf.
      destruct (run_unit _ _ _ _); [|done..]. simpl in *.
      eapply frame_trans_0; [|exact Hf]. eapply frame_trans_0; apply frame_log.
    + specialize (IH (log (ioutil_ReadAll fullPath) (log (os_Open fullPath) s))).
      destruct (require_search _ _ _ _); [|done..]. simpl in *.
      eapply frame_trans_0; [|exact IH]. eapply frame_trans_0; apply frame_log.
  - specialize (IH (log (os_Open fullPath) s)).
    destruct (require_search _ _ _ _); [|done..]. simpl in *.
    eapply frame_trans_0; [apply frame_log | exact IH].
Qed.

Lemma require_framed run args s : run_framed run -> outcome_framed s (require run args s).
Proof.
  intros Hrun. unfold require.
  destruct args as [|[[fileName| | | | | | | |]|] args]; try done.
  destruct (String.eqb _ _).
  - destruct (new_instance "False" s) as [[v s1]|] eqn:Hnew; [|done].
    simpl. by eapply frame_new_instance.
  - destruct (Array_Members _ _ _); [|done]. by apply require_search_framed.
Qed.

Lemma Execute_framed run method args s :
  run_framed run -> outcome_framed s (Execute run method args s).
Proof.
  intros Hrun. unfold Execute. destruct (Method_body method).
  - apply frame_refl.
  - by apply require_framed.
  - apply puts_framed.
  - apply frame_refl.
  - destruct (native_Execute _ _ _ _) as [[[v e] w]|]; [|done]. apply frame_set_world.
Qed.

Lemma Run_framed exec : framed exec -> run_framed (Run exec).
Proof.
  intros Hexec input s. unfold Run. destruct (RubyParse _ _) as [statements|].
  - pose proof (Hexec statements (map_get (ObjectSpace s) "main")
                  (set_stack (Unshift "main" (stack s)) s)) as Hf.
    destruct (exec _ _ _) as [r s1| |]; [|done..]. simpl in *.
    apply frame_pop. eapply (frame_trans 1 0); [apply frame_push | done].
  - apply frame_refl.
Qed.

Section Framed.
Variable exec : list Node -> option Value -> vm -> Outcome Result.
Hypothesis Hexec : framed exec.

Lemma eval_args_framed Args context args s :
  outcome_framed s (eval_args exec Args context args s).
Proof using Hexec.
  revert args s. induction Args as [|a Args IH]; intros args s; simpl; [apply frame_refl|].
  pose proof (Hexec [a] context s) as Hf.
  destruct (exec _ _ _) as [[arg [err|]] s1| |]; try done.
  specialize (IH (args ++ [arg])%list s1).
  destruct (eval_args _ _ _ _ _); [|done..]. simpl in *. by eapply frame_trans_0.
Qed.

Lemma rescue_loop_framed rubyErr clauses context err s :
  outcome_framed s (rescue_loop exec rubyErr clauses context err s).
Proof using Hexec.
  revert err s. induction clauses as [|c clauses IH]; intros err s; simpl; [apply frame_refl|].
  destruct c; try done.
  destruct (String.eqb _ _); [|apply IH].
  pose proof (Hexec Body context s) as Hf.
  destruct (exec _ _ _) as [[v [err1|]] s1| |]; try done.
  specialize (IH err1 s1).
  destruct (rescue_loop _ _ _ _ _ _); [|done..]. simpl in *. by eapply frame_trans_0.
Qed.

Lemma call_framed target Func Args context s :
  flow_framed s (call exec target Func Args context s).
Proof using Hexec.
  unfold call. destruct target as [target|].
  - destruct (Method_of _ _ _ _) as [method|]; [|apply frame_log].
    pose proof (eval_args_framed Args context [] s) as Hf.
    destruct (eval_args _ _ _ _ _) as [[args|err] s1| |]; try done.
    pose proof (Execute_framed (Run exec) method args
                  (set_stack (Unshift (Method_Name method) (stack s1)) s1)
                  (Run_framed exec Hexec)) as He.
    destruct (Execute _ _ _ _) as [[v [e|]] s3| |]; try done; simpl in *.
    + eapply frame_trans_0; [exact Hf|].
      eapply (frame_trans 1 0); [apply frame_push | done].
    + eapply frame_trans_0; [exact Hf|].
      eapply (frame_trans 1 0); [apply frame_push | done].
  - destruct (new_instance "Nil" s) as [[nilValue s1]|] eqn:Hnew; [|done].
    simpl. by eapply frame_new_instance.
Qed.

Lemma step_framed statement context rv re s :
  flow_framed s (step exec statement context rv re s).
Proof using Hexec.
  destruct statement
    as [cond body els|name|str|str|b|name|n|f|name|name|target func args|lhs rhs|
        |body clauses|cls body|kind];
    simpl; try done; try apply frame_refl.
  - (* IfBlock *)
    pose proof (Hexec (if truthy cond then body else els) context s) as Hf.
    by destruct (exec _ _ _) as [[v e] s1| |].
  - (* FuncDecl *)
    destruct (map_get _ _); [apply frame_set_world | done].
  - (* Boolean *)
    destruct (new_instance _ s) as [[v s1]|] eqn:Hnew; [|done].
    simpl. by eapply frame_new_instance.
  - (* Symbol *)
    destruct (CurrentSymbols s !! name) eqn:Hs; simpl; [apply frame_refl|].
    by apply (frame_intern name s).
  - (* BareReference *)
    destruct (ObjectSpace s !! name); simpl; [apply frame_refl|].
    destruct context; [apply frame_refl | done].
  - (* CallExpression *)
    destruct target as [t|]; [|apply call_framed].
    pose proof (Hexec [t] context s) as Hf.
    destruct (exec _ _ _) as [[target [err|]] s1| |]; try done.
    pose proof (call_framed target func args context s1) as Hc.
    destruct (call _ _ _ _ _ _); try done; simpl in *; by eapply frame_trans_0.
  - (* Assignment *)
    pose proof (Hexec [rhs] context s) as Hf.
    destruct (exec _ _ _) as [[value [err|]] s1| |]; try done.
    destruct lhs; try done; simpl in *.
    + eapply frame_trans_0; [exact Hf | apply frame_set_CurrentGlobals].
    + eapply frame_trans_0; [exact Hf | apply frame_set_ObjectSpace].
  - (* Begin *)
    pose proof (Hexec body context s) as Hf.
    destruct (exec _ _ _) as [[v [[f|rubyErr]|]] s1| |]; try done.
    pose proof (rescue_loop_framed rubyErr clauses context (RubyError rubyErr) s1) as Hr.
    destruct (rescue_loop _ _ _ _ _ _) as [[err1|] s2| |]; try done;
      simpl in *; by eapply frame_trans_0.
Qed.

Lemma iterate_framed statements context rv re d s0 s :
  frame d s0 s -> flow_framed s0 (iterate exec statements context rv re d s).
Proof using Hexec.
  revert rv re d s. induction statements as [|statement rest IH]; intros rv re d s Hd; simpl.
  { done. }
  pose proof (step_framed statement context rv re s) as Hf.
  destruct (step _ _ _ _ _ _) as [v e d1 s1|v e d1 s1| |]; try done; simpl in *.
  - apply IH. by eapply frame_trans.
  - by eapply frame_trans.
Qed.

Lemma loop_framed statements context rv re d s0 s :
  frame d s0 s -> outcome_framed s0 (loop exec statements context rv re d s).
Proof using Hexec.
  intros Hd. unfold loop.
  pose proof (iterate_framed statements context rv re d s0 s Hd) as Hf.
  destruct (iterate _ _ _ _ _ _ _); try done; simpl in *; by apply frame_run_defers.
Qed.

End Framed.

(** Every evaluation that returns leaves the call stack, the unit name,
    the class table and the load path object as it found them, and only adds
    to the symbol table. *)
Lemma executeWithContext_framed fuel : framed (executeWithContext fuel).
Proof.
  induction fuel as [|fuel IH]; intros statements context s; simpl; [done|].
  apply loop_framed; [exact IH | apply frame_refl].
Qed.

Lemma vm_Run_framed fuel : run_framed (vm_Run fuel).
Proof. apply Run_framed, executeWithContext_framed. Qed.

(** ** Conditionals *)

(** The branch of an [IfBlock] is chosen by the shape of the condition, and
    evaluated against the context of the [IfBlock]. *)
Lemma step_IfBlock exec cond body els context rv re s :
  step exec (IfBlock cond body els) context rv re s
  = match exec (if truthy cond then body else els) context s with
    | Ret (v, e) s1 => Next v e 0 s1
    | Panic => Fault
    | OutOfFuel => Exhausted
    end.
Proof. reflexivity. Qed.

Lemma truthy_Boolean b : truthy (Boolean b) = b.
Proof. reflexivity. Qed.

Lemma truthy_BareReference name : truthy (BareReference name) = String.eqb name "nil".
Proof. reflexivity. Qed.

Lemma truthy_other_shapes cond :
  (forall b, cond <> Boolean b) -> (forall name, cond <> BareReference name) ->
  truthy cond = true.
Proof.
  intros Hb Hn. destruct cond as [| | | |b| | | | |name| | | | | |]; try done.
  - by destruct (Hb b).
  - by destruct (Hn name).
Qed.

(** C1 (the code departs from the claim): an if/else node whose condition
    is the bare reference [nil] evaluates its then branch, and one whose
    condition is any other bare reference, here [x], evaluates its else
    branch, where the claim has [nil] falsy and every other shape truthy.
    The comparison of the name with "nil" is the wrong way round. *)
Theorem if_nil_takes_then_branch fuel context s :
  executeWithContext (S (S fuel))
    [IfBlock (BareReference "nil") [SimpleString "then"] [SimpleString "else"]] context s
  = Ret (Some (StringValue "then"), None) s /\
  executeWithContext (S (S fuel))
    [IfBlock (BareReference "x") [SimpleString "then"] [SimpleString "else"]] context s
  = Ret (Some (StringValue "else"), None) s.
Proof.
  split; rewrite executeWithContext_S; apply loop_single_Next;
    rewrite step_IfBlock, executeWithContext_S; simpl; by rewrite run_defers_0.
Qed.

(** ** References *)


(** ** require *)

(** C8: [require] of the unit "rubygems" returns a new instance of the
    class registered as "False" and no error; nothing but the state of the
    class that made the instance changes: no load path member is read, no
    file is opened, the unit is not run. *)
Theorem require_rubygems run rest c s :
  CurrentClasses s !! "False" = Some c ->
  exists v s',
    Execute run (NewMethod "require" main_require)
            (Some (StringValue "rubygems") :: rest) s = Ret (Some v, None) s' /\
    (v, world s') = Class_New P c (world s) /\
    s' = set_world (world s') s /\
    trace s' = trace s.
Proof.
  intros Hc. unfold Execute, require, new_instance. simpl. rewrite Hc.
  destruct (Class_New P c (world s)) as [v w]. by exists v, (set_world w s).
Qed.

(** C10: [require] called with no argument, or with a first argument that
    is not a string, panics: it returns neither a value nor an error. *)
Theorem require_without_string_panics run args s :
  starts_with_string args = false ->
  Execute run (NewMethod "require" main_require) args s = Panic.
Proof.
  unfold Execute, require. simpl.
  by destruct args as [|[[]|] args].
Qed.

(** ** Errors inside a sequence *)

(** A statement of another kind that goes on with no error of its own
    leaves the recorded error alone. *)
Lemma step_keeps_error exec statement context rv err v d s s1 :
  assigns_returnErr statement = false ->
  step exec statement context rv None s = Next v None d s1 ->
  step exec statement context rv (Some err) s = Next v (Some err) d s1.
Proof.
  destruct statement; simpl; intros Ha H; try done;
    repeat (case_match; try done); by simplify_eq.
Qed.

(** A statement of another kind cannot clear a recorded error, and returns
    from the function only with an error. *)
Lemma step_error_sticks exec statement context rv err s :
  assigns_returnErr statement = false ->
  match step exec statement context rv (Some err) s with
  | Next _ e _ _ | Return _ e _ _ => e <> None
  | _ => True
  end.
Proof.
  destruct statement; simpl; intros Ha; try done;
    repeat (case_match; try done); by simplify_eq.
Qed.

Lemma step_Return_error exec statement context rv re v e d s s1 :
  assigns_returnErr statement = false ->
  step exec statement context rv re s = Return v e d s1 -> e <> None.
Proof.
  destruct statement; simpl; intros Ha H; try done;
    repeat (case_match; try done); by simplify_eq.
Qed.

Lemma iterate_error_sticks exec statements context rv err d s :
  forallb (fun st => negb (assigns_returnErr st)) statements = true ->
  match iterate exec statements context rv (Some err) d s with
  | Next _ e _ _ | Return _ e _ _ => e <> None
  | _ => True
  end.
Proof.
  revert rv err d s. induction statements as [|st rest IH]; intros rv err d s; simpl; [done|].
  intros [Hst Hrest]%andb_prop. apply negb_true_iff in Hst.
  pose proof (step_error_sticks exec st context rv err s Hst) as Hs.
  destruct (step _ _ _ _ _ _) as [v [e|] d1 s1|v e d1 s1| |]; try done.
  by apply IH.
Qed.

Lemma iterate_keeps_error exec statements context rv err d v d' s s' :
  forallb (fun st => negb (assigns_returnErr st)) statements = true ->
  iterate exec statements context rv None d s = Next v None d' s' ->
  iterate exec statements context rv (Some err) d s = Next v (Some err) d' s'.
Proof.
  revert rv d s. induction statements as [|st rest IH]; intros rv d s; simpl.
  { intros _ H. by simplify_eq. }
  intros [Hst Hrest]%andb_prop. apply negb_true_iff in Hst.
  destruct (step exec st context rv None s) as [v1 [e1|] d1 s1|v1 e1 d1 s1| |] eqn:Hs;
    try done.
  - intros H. pose proof (iterate_error_sticks exec rest context v1 e1 (d1 + d) s1 Hrest) as Hk.
    by rewrite H in Hk.
  - rewrite (step_keeps_error _ _ _ _ err _ _ _ _ Hst Hs). by apply IH.
Qed.

Lemma loop_keeps_error exec statements context rv err d v s s' :
  forallb (fun st => negb (assigns_returnErr st)) statements = true ->
  loop exec statements context rv None d s = Ret (v, None) s' ->
  loop exec statements context rv (Some err) d s = Ret (v, Some err) s'.
Proof.
  intros Hall. unfold loop.
  destruct (iterate exec statements context rv None d s) as [v1 e1 d1 s1|v1 e1 d1 s1| |] eqn:Hi;
    try done; intros H; simplify_eq.
  - by rewrite (iterate_keeps_error _ _ _ _ err _ _ _ _ _ Hall Hi).
  - exfalso. clear -Hall Hi. revert rv d s Hi.
    induction statements as [|st rest IH]; intros rv d s; simpl; [done|].
    apply andb_prop in Hall as [Hst Hrest]. apply negb_true_iff in Hst.
    destruct (step exec st context rv None s) as [v2 e2 d2 s2|v2 e2 d2 s2| |] eqn:Hs; try done.
    + destruct e2 as [e2|]; [|by apply IH].
      intros H. pose proof (iterate_error_sticks exec rest context v2 e2 (d2 + d) s2 Hrest) as Hk.
      by rewrite H in Hk.
    + intros [= -> -> _ _]. by eapply step_Return_error.
Qed.

(** C9 (as amended): a bare reference to a name that the object space does
    not hold records its NameError and the loop goes on with the remaining
    statements, in the same state; when none of these is an if/else node or a
    call expression and they end with a value and no error of their own, the
    sequence returns that value together with the NameError. *)
Theorem name_error_does_not_end_sequence fuel name c rest s :
  ObjectSpace s !! name = None ->
  executeWithContext (S fuel) (BareReference name :: rest) (Some c) s
  = loop (executeWithContext fuel) rest (Some c) None (Some (name_error name c s)) 0 s /\
  (forallb (fun st => negb (assigns_returnErr st)) rest = true ->
   forall v s',
     executeWithContext (S fuel) rest (Some c) s = Ret (v, None) s' ->
     executeWithContext (S fuel) (BareReference name :: rest) (Some c) s
     = Ret (v, Some (name_error name c s)) s').
Proof.
  intros Hmiss.
  assert (executeWithContext (S fuel) (BareReference name :: rest) (Some c) s
          = loop (executeWithContext fuel) rest (Some c) None (Some (name_error name c s)) 0 s)
    as Heq.
  { rewrite executeWithContext_S. unfold loop. simpl. by rewrite Hmiss. }
  split; [done|]. intros Hall v s' H. rewrite Heq. by apply loop_keeps_error.
Qed.

(** ** begin/rescue *)

Lemma rescue_loop_passes_over exec rubyErr pre rest context err s :
  forallb (passes_over (world s) rubyErr) pre = true ->
  rescue_loop exec rubyErr (pre ++ rest) context err s
  = rescue_loop exec rubyErr rest context err s.
Proof.
  induction pre as [|c pre IH]; simpl; [done|].
  intros [Hc Hpre]%andb_prop. destruct c; try done. simpl in Hc.
  apply negb_true_iff in Hc. rewrite Hc. by apply IH.
Qed.

(** The loop over [pre ++ rest] is the loop over [pre] and, unless that
    ended at a clause that succeeded, the loop over [rest] from where it
    stopped. *)
Lemma rescue_loop_app exec rubyErr pre rest context err s :
  rescue_loop exec rubyErr (pre ++ rest) context err s
  = match rescue_loop exec rubyErr pre context err s with
    | Ret (Some err1) s1 => rescue_loop exec rubyErr rest context err1 s1
    | Ret None s1 => Ret None s1
    | Panic => Panic
    | OutOfFuel => OutOfFuel
    end.
Proof.
  revert err s. induction pre as [|c pre IH]; intros err s; simpl; [done|].
  destruct c; try done. destruct (String.eqb _ _); [|apply IH].
  destruct (exec _ _ _) as [[v [err1|]] s1| |]; done.
Qed.

Lemma rescue_loop_all_passed_over exec rubyErr clauses context err s :
  forallb (passes_over (world s) rubyErr) clauses = true ->
  rescue_loop exec rubyErr clauses context err s = Ret (Some err) s.
Proof.
  intros H. rewrite <- (app_nil_r clauses). by rewrite rescue_loop_passes_over.
Qed.

(** The [Begin] case when the clauses [pre] were tried without success and
    the next clause matches and succeeds, and when no clause succeeds: the
    running value is left as it was, whatever the rescue body returned. *)
Lemma step_Begin_rescued exec body pre cbody post context rv re bv rubyErr err1 cv s s1 s2 s3 :
  exec body context s = Ret (bv, Some (RubyError rubyErr)) s1 ->
  rescue_loop exec rubyErr pre context (RubyError rubyErr) s1 = Ret (Some err1) s2 ->
  exec cbody context s2 = Ret (cv, None) s3 ->
  step exec (Begin body (pre ++ Rescue (Value_String (world s2) rubyErr) cbody :: post))
       context rv re s
  = Next rv re 0 s3.
Proof.
  intros Hbody Hpre Hc. simpl. rewrite Hbody, rescue_loop_app, Hpre.
  simpl. by rewrite String.eqb_refl, Hc.
Qed.

Lemma step_Begin_unrescued exec body clauses context rv re bv rubyErr err1 s s1 s2 :
  exec body context s = Ret (bv, Some (RubyError rubyErr)) s1 ->
  rescue_loop exec rubyErr clauses context (RubyError rubyErr) s1 = Ret (Some err1) s2 ->
  step exec (Begin body clauses) context rv re s = Next rv (Some err1) 0 s2.
Proof. intros Hbody Hpre. simpl. by rewrite Hbody, Hpre. Qed.

(** C2 (as amended): when the body of a begin/rescue node fails with an
    error value, the clauses are tried in source order.  If the clauses [pre]
    were tried without success and the next clause has a class name equal to
    the string form of the error, its body is evaluated and, if that
    succeeds, no further clause is tried, no error propagates, and the value
    of the rescue body is dropped: the node has no value of its own.  If no
    clause succeeds, the last failure is the error of the node, and that is
    the error of the body when no clause matches. *)
Theorem begin_rescue fuel body pre context bv rubyErr err1 s s1 s2 :
  executeWithContext fuel body context s = Ret (bv, Some (RubyError rubyErr)) s1 ->
  rescue_loop (executeWithContext fuel) rubyErr pre context (RubyError rubyErr) s1
  = Ret (Some err1) s2 ->
  (forall cbody post cv s3,
     executeWithContext fuel cbody context s2 = Ret (cv, None) s3 ->
     executeWithContext (S fuel)
       [Begin body (pre ++ Rescue (Value_String (world s2) rubyErr) cbody :: post)] context s
     = Ret (None, None) s3) /\
  executeWithContext (S fuel) [Begin body pre] context s = Ret (None, Some err1) s2 /\
  (forallb (passes_over (world s1) rubyErr) pre = true ->
   err1 = RubyError rubyErr /\ s2 = s1).
Proof.
  intros Hbody Hpre. split; [|split].
  - intros cbody post cv s3 Hc. rewrite executeWithContext_S. apply loop_single_Next.
    by eapply step_Begin_rescued.
  - rewrite executeWithContext_S. apply loop_single_Next. by eapply step_Begin_unrescued.
  - intros Hall. rewrite rescue_loop_all_passed_over in Hpre by done. by simplify_eq.
Qed.

(** ** The search of require *)

Lemma world_probed fileName members s : world (probed fileName members s) = world s.
Proof.
  revert s. induction members as [|[[path| | | | | | | |]|] members IH]; intros s; simpl; try done.
  rewrite IH. by destruct (Open_ok _ _ _).
Qed.

Lemma currentFilename_probed fileName members s :
  currentFilename (probed fileName members s) = currentFilename s.
Proof.
  revert s. induction members as [|[[path| | | | | | | |]|] members IH]; intros s; simpl; try done.
  rewrite IH. by destruct (Open_ok _ _ _).
Qed.

Lemma CurrentClasses_probed fileName members s :
  CurrentClasses (probed fileName members s) = CurrentClasses s.
Proof.
  revert s. induction members as [|[[path| | | | | | | |]|] members IH]; intros s; simpl; try done.
  rewrite IH. by destruct (Open_ok _ _ _).
Qed.

Lemma stack_probed fileName members s : stack (probed fileName members s) = stack s.
Proof.
  revert s. induction members as [|[[path| | | | | | | |]|] members IH]; intros s; simpl; try done.
  rewrite IH. by destruct (Open_ok _ _ _).
Qed.

Lemma require_search_skipped run fileName pre rest s :
  forallb (skipped (world s) fileName) pre = true ->
  require_search run fileName (pre ++ rest) s
  = require_search run fileName rest (probed fileName pre s).
Proof.
  revert s. induction pre as [|m pre IH]; intros s; simpl; [done|].
  intros [Hm Hpre]%andb_prop. destruct m as [[path| | | | | | | |]|]; try done.
  simpl in Hm. destruct (Open_ok _ _ _) eqn:Hopen; simpl in *.
  - destruct (ReadAll _ _ _); [done|]. by apply IH.
  - by apply IH.
Qed.

(** The search when a directory whose file opens and is read comes after
    members that are passed over, and when there is none. *)
Lemma require_search_found run fileName pre path contents post s :
  forallb (skipped (world s) fileName) pre = true ->
  Open_ok P (world s) (filepath_Join P path (fileName ++ ".rb")) = true ->
  ReadAll P (world s) (filepath_Join P path (fileName ++ ".rb")) = Some contents ->
  require_search run fileName (pre ++ Some (StringValue path) :: post) s
  = run_unit run (filepath_Join P path (fileName ++ ".rb")) contents
      (log (ioutil_ReadAll (filepath_Join P path (fileName ++ ".rb")))
         (log (os_Open (filepath_Join P path (fileName ++ ".rb")))
            (probed fileName pre s))).
Proof.
  intros Hpre Hopen Hread. rewrite require_search_skipped by done. simpl.
  by rewrite world_probed, Hopen, Hread.
Qed.



(** ** The unit name *)




(** ** Symbols *)

Lemma later_kept s s' : later s s' -> kept s s'.
Proof.
  induction 1 as [s|fuel statements context r s s1 s2 H _ IH|fuel input r s s1 s2 H _ IH].
  - apply kept_refl.
  - pose proof (executeWithContext_framed fuel statements context s) as Hf.
    rewrite H in Hf. destruct Hf as [Hk _]. by eapply kept_trans.
  - pose proof (vm_Run_framed fuel input s) as Hf.
    rewrite H in Hf. destruct Hf as [Hk _]. by eapply kept_trans.
Qed.

(** A symbol literal whose name is in the table evaluates to the entry. *)
Lemma Symbol_cached fuel name context v s :
  CurrentSymbols s !! name = Some v ->
  executeWithContext (S fuel) [Symbol name] context s = Ret (v, None) s.
Proof.
  intros H. rewrite executeWithContext_S. apply loop_single_Next. simpl. by rewrite H.
Qed.

(** A symbol literal whose name is not in the table evaluates to a new
    symbol, which is filed under the name. *)
Lemma Symbol_new fuel name context s :
  CurrentSymbols s !! name = None ->
  executeWithContext (S fuel) [Symbol name] context s
  = Ret (Some (SymbolValue (allocs s) name), None) (intern name s).2.
Proof.
  intros H. rewrite executeWithContext_S. apply loop_single_Next. simpl. by rewrite H.
Qed.

(** C6: in a machine whose symbol table is well formed, a symbol literal
    evaluates to a symbol [v] that is then in the table under its name: the
    one that was there, or else a new one, which is cached; every later
    evaluation of a symbol literal of that name returns [v] itself and
    changes nothing; and a symbol literal of another name never evaluates to
    the instance [v]. *)
Theorem symbol_interning fuel name context s :
  interned s ->
  exists v s1,
    executeWithContext (S fuel) [Symbol name] context s = Ret (Some v, None) s1 /\
    CurrentSymbols s1 !! name = Some (Some v) /\
    (CurrentSymbols s !! name = None ->
     v = SymbolValue (allocs s) name /\
     CurrentSymbols s1 = <[name := Some v]> (CurrentSymbols s)) /\
    (forall s2 fuel' context',
       later s1 s2 ->
       executeWithContext (S fuel') [Symbol name] context' s2 = Ret (Some v, None) s2) /\
    (forall s2 fuel' context' name' v' s3,
       later s1 s2 -> name' <> name ->
       executeWithContext (S fuel') [Symbol name'] context' s2 = Ret (Some v', None) s3 ->
       ~ same_instance v v').
Proof.
  intros Hin.
  assert (exists v s1,
    executeWithContext (S fuel) [Symbol name] context s = Ret (Some v, None) s1 /\
    CurrentSymbols s1 !! name = Some (Some v) /\ interned s1 /\
    (CurrentSymbols s !! name = None ->
     v = SymbolValue (allocs s) name /\
     CurrentSymbols s1 = <[name := Some v]> (CurrentSymbols s)))
    as (v & s1 & Hev & Hs1 & Hin1 & Hnew).
  { destruct (CurrentSymbols s !! name) as [v|] eqn:Hs.
    - destruct (Hin _ _ Hs) as (addr & -> & _).
      exists (SymbolValue addr name), s. by rewrite (Symbol_cached _ _ _ _ _ Hs).
    - exists (SymbolValue (allocs s) name), (intern name s).2.
      rewrite (Symbol_new _ _ _ _ Hs). simpl.
      split; [done|]. split; [apply lookup_insert_eq|].
      split; [by apply interned_intern | done]. }
  exists v, s1. do 3 (split; [done|]). split.
  - intros s2 fuel' context' Hl. apply Symbol_cached.
    apply later_kept in Hl. by eapply lookup_weaken, kept_CurrentSymbols.
  - intros s2 fuel' context' name' v' s3 Hl Hne Hev'.
    apply later_kept in Hl. pose proof (kept_interned _ _ Hl Hin1) as Hin2.
    pose proof (lookup_weaken _ _ _ _ Hs1 (kept_CurrentSymbols _ _ Hl)) as Hs2.
    destruct (Hin2 _ _ Hs2) as (addr & [= ->] & Hlt & Huniq).
    destruct (CurrentSymbols s2 !! name') as [w|] eqn:Hs'.
    + rewrite (Symbol_cached _ _ _ _ _ Hs') in Hev'. simplify_eq.
      destruct (Hin2 _ _ Hs') as (addr' & [= ->] & _ & _). simpl. intros <-.
      by apply Hne, Huniq.
    + rewrite (Symbol_new _ _ _ _ Hs') in Hev'. simplify_eq. simpl. lia.
Qed.

(** ** The call stack *)

(** Every evaluation and every top-level run that returns leaves the call
    stack as it found it. *)
Lemma executeWithContext_stack fuel statements context r s s' :
  executeWithContext fuel statements context s = Ret r s' -> stack s' = stack s.
Proof.
  intros H. pose proof (executeWithContext_framed fuel statements context s) as Hf.
  rewrite H in Hf. by destruct Hf as [_ Hst].
Qed.

Lemma vm_Run_stack fuel input r s s' :
  vm_Run fuel input s = Ret r s' -> stack s' = stack s.
Proof.
  intros H. pose proof (vm_Run_framed fuel input s) as Hf.
  rewrite H in Hf. by destruct Hf as [_ Hst].
Qed.

(** A call pushes one frame, named after the method found, before the
    method executes.  When the method returns an error the function returns
    with one more deferred pop; when it returns none, the loop goes on to the
    remaining statements with that pop still pending. *)
Lemma call_frame exec method c Func s :
  Method_of P (world s) c Func = Some method ->
  call exec (Some c) Func [] (Some c) s
  = match Execute (Run exec) method []
            (set_stack (Method_Name method :: stack s) s) with
    | Ret (v, Some err) s1 => Return v (Some err) 1 s1
    | Ret (v, None) s1 => Next v None 1 s1
    | Panic => Fault
    | OutOfFuel => Exhausted
    end.
Proof. intros H. unfold call. by rewrite H. Qed.

Lemma call_frame_pending exec method c Func rest rv re d v s s1 :
  Method_of P (world s) c Func = Some method ->
  Execute (Run exec) method [] (set_stack (Method_Name method :: stack s) s)
  = Ret (v, None) s1 ->
  iterate exec (CallExpression None Func [] :: rest) (Some c) rv re d s
  = iterate exec rest (Some c) v None (1 + d) s1.
Proof. intros Hm He. cbn [iterate step]. by rewrite (call_frame exec _ _ _ _ Hm), He. Qed.

(** ** The machine that [NewVM] makes *)

Lemma interned_NewVM name : interned (NewVM name).
Proof.
  intros n v. unfold NewVM. repeat case_match. simpl. by rewrite lookup_empty.
Qed.

End Properties.

(** * Further properties *)
Section More.
Context {P : Platform}.

Implicit Types (s : vm) (context : option Value) (statements : list Node).
Implicit Types (exec : list Node -> option Value -> vm -> Outcome Result).

(** ** What a run leaves alone *)

(** X1: an evaluation, a top-level run and a method execution that return,
    with or without an error, leave the call stack as they found it. *)
Theorem returning_calls_restore_the_call_stack fuel statements context input method args s :
  (forall r s', executeWithContext fuel statements context s = Ret r s' -> stack s' = stack s) /\
  (forall r s', vm_Run fuel input s = Ret r s' -> stack s' = stack s) /\
  (forall r s', Execute (vm_Run fuel) method args s = Ret r s' -> stack s' = stack s).
Proof.
  split; [|split]; intros r s' H.
  - by eapply executeWithContext_stack.
  - by eapply vm_Run_stack.
  - pose proof (Execute_framed (vm_Run fuel) method args s (vm_Run_framed fuel)) as Hf.
    rewrite H in Hf. by destruct Hf as [_ Hst].
Qed.

(** X2: no evaluation and no top-level run that returns changes the unit
    name, the class table or the array that require searches. *)
Theorem returning_calls_keep_unit_classes_and_load_path fuel statements context input s :
  (forall r s',
     executeWithContext fuel statements context s = Ret r s' ->
     currentFilename s' = currentFilename s /\
     CurrentClasses s' = CurrentClasses s /\ loadPath s' = loadPath s) /\
  (forall r s',
     vm_Run fuel input s = Ret r s' ->
     currentFilename s' = currentFilename s /\
     CurrentClasses s' = CurrentClasses s /\ loadPath s' = loadPath s).
Proof.
  split; intros r s' H.
  - pose proof (executeWithContext_framed fuel statements context s) as Hf.
    rewrite H in Hf. by destruct Hf as [[] _].
  - pose proof (vm_Run_framed fuel input s) as Hf.
    rewrite H in Hf. by destruct Hf as [[] _].
Qed.

(** X3: an evaluation that returns never removes or replaces an entry of
    the symbol table: what a name was bound to, it is still bound to. *)
Theorem symbol_table_only_grows fuel statements context r s s' name v :
  executeWithContext fuel statements context s = Ret r s' ->
  CurrentSymbols s !! name = Some v ->
  CurrentSymbols s' !! name = Some v.
Proof.
  intros H Hs. pose proof (executeWithContext_framed fuel statements context s) as Hf.
  rewrite H in Hf. destruct Hf as [[_ _ _ Hsub _] _]. by eapply lookup_weaken.
Qed.

(** X4: in every machine reached from a new one, the symbol table holds
    under each name a symbol of that name, and two entries are the same
    instance exactly when they are filed under the same name. *)
Theorem reachable_symbols_identity_is_name_equality unit s name1 name2 v1 v2 :
  later (NewVM unit) s ->
  CurrentSymbols s !! name1 = Some v1 ->
  CurrentSymbols s !! name2 = Some v2 ->
  exists addr1 addr2,
    v1 = Some (SymbolValue addr1 name1) /\ v2 = Some (SymbolValue addr2 name2) /\
    (addr1 = addr2 <-> name1 = name2).
Proof.
  intros Hl H1 H2. apply later_kept in Hl.
  pose proof (kept_interned _ _ Hl (interned_NewVM unit)) as Hin.
  destruct (Hin _ _ H1) as (a1 & -> & _ & Hu1).
  destruct (Hin _ _ H2) as (a2 & -> & _ & _).
  exists a1, a2. do 2 (split; [done|]). split.
  - intros <-. symmetry. by apply Hu1.
  - intros <-. by simplify_eq.
Qed.

(** What [NewVM] binds. *)
Lemma NewVM_fields unit :
  exists array object process true_ false_ nil_ kernel file argv main w,
    NewVM unit
    = mkvm unit
        (<["main" := Some main]> (<["ARGV" := Some argv]> (<["File" := Some file]>
           (<["Kernel" := Some kernel]> (<["Object" := Some object]> ∅)))))
        (<[":" := Some (loadPath (NewVM unit))]>
           (<["LOAD_PATH" := Some (loadPath (NewVM unit))]> ∅))
        ∅
        (<["Nil" := nil_]> (<["False" := false_]> (<["True" := true_]>
           (<["Process" := process]> (<["Object" := object]> (<["Array" := array]> ∅))))))
        [] (loadPath (NewVM unit)) w 0 [].
Proof.
  unfold NewVM, registerClasses.
  destruct (NewArrayClass P (world0 P)) as [array w1].
  destruct (NewGlobalObjectClass P w1) as [object w2].
  destruct (NewProcessClass P w2) as [process w3].
  destruct (NewTrueClass P w3) as [true_ w4].
  destruct (NewFalseClass P w4) as [false_ w5].
  destruct (NewNilClass P w5) as [nil_ w6].
  set (classes := <["Nil" := nil_]> (<["False" := false_]> (<["True" := true_]>
     (<["Process" := process]> (<["Object" := object]> (<["Array" := array]> ∅)))))).
  assert (classes !!! "Array" = array) as ->.
  { unfold classes. repeat (rewrite lookup_total_insert_ne by done).
    apply lookup_total_insert_eq. }
  assert (classes !!! "Object" = object) as ->.
  { unfold classes. repeat (rewrite lookup_total_insert_ne by done).
    apply lookup_total_insert_eq. }
  destruct (Class_New P array w6) as [lp w7].
  destruct (NewGlobalKernelClass P w7) as [kernel w8].
  destruct (NewFileClass P w8) as [file w9].
  destruct (Class_New P array w9) as [argv w10].
  destruct (Class_New P object w10) as [main w11].
  simpl. by eexists array, object, process, true_, false_, nil_, kernel, file, argv, main, _.
Qed.


(** X6: in every machine reached from a new one the class table has
    exactly the six classes that registerClasses puts there, and a boolean
    literal evaluates, without error, to a new instance of the class
    registered as True or False. *)
Theorem reachable_class_table unit s :
  later (NewVM unit) s ->
  dom (CurrentClasses s)
  = (list_to_set ["Array"; "Object"; "Process"; "True"; "False"; "Nil"] : gset string) /\
  forall fuel (b : bool) context,
    exists c,
      CurrentClasses s !! (if b then "True" else "False") = Some c /\
      executeWithContext (S fuel) [Boolean b] context s
      = Ret (Some (Class_New P c (world s)).1, None)
            (set_world (Class_New P c (world s)).2 s).
Proof.
  intros Hl. apply later_kept, kept_CurrentClasses in Hl.
  destruct (NewVM_fields unit) as (a & o & p & t & f & n & k & fi & ar & m & w & Heq).
  rewrite Heq in Hl. simpl in Hl. split.
  - rewrite Hl, !dom_insert_L, dom_empty_L. simpl. set_solver.
  - intros fuel b context.
    assert (CurrentClasses s !! (if b then "True" else "False")
            = Some (if b then t else f)) as Hc.
    { rewrite Hl. by destruct b. }
    exists (if b then t else f). split; [done|].
    rewrite executeWithContext_S. apply loop_single_Next. simpl. unfold new_instance.
    rewrite Hc. by destruct (Class_New _ _ _).
Qed.

(** ** The accessors *)

(** X7: a key that [Set] has bound is found by [Get] and [MustGet] with the
    value bound, nil included, and by a bare reference of the evaluator; the
    other keys and the globals are as they were. *)
Theorem Set_then_Get key key' value fuel context s :
  Get key (vm_Set key value s) = (value, None) /\
  MustGet key (vm_Set key value s) = value /\
  executeWithContext (S fuel) [BareReference key] context (vm_Set key value s)
  = Ret (value, None) (vm_Set key value s) /\
  (key' <> key ->
   Get key' (vm_Set key value s) = Get key' s /\
   MustGet key' (vm_Set key value s) = MustGet key' s) /\
  CurrentGlobals (vm_Set key value s) = CurrentGlobals s.
Proof.
  split; [|split; [|split; [|split]]].
  - unfold Get, vm_Set. simpl. by rewrite lookup_insert_eq.
  - unfold MustGet, vm_Set. simpl. by rewrite lookup_insert_eq.
  - rewrite executeWithContext_S. apply loop_single_Next. simpl.
    by rewrite lookup_insert_eq.
  - intros Hne. unfold Get, MustGet, vm_Set. simpl. by rewrite lookup_insert_ne.
  - done.
Qed.

(** X8: [Get] and [MustGet] look in the object space first and in the
    globals second.  A key that only the globals hold is found by both,
    while a bare reference to it in a program fails with a NameError; a key
    that neither holds gives nil, and with [Get] the error "'key' is
    undefined". *)
Theorem Get_lookup_order key s :
  (forall v, ObjectSpace s !! key = Some v -> Get key s = (v, None) /\ MustGet key s = v) /\
  (forall v c fuel,
     ObjectSpace s !! key = None -> CurrentGlobals s !! key = Some v ->
     Get key s = (v, None) /\ MustGet key s = v /\
     executeWithContext (S fuel) [BareReference key] (Some c) s
     = Ret (None, Some (name_error key c s)) s) /\
  (ObjectSpace s !! key = None -> CurrentGlobals s !! key = None ->
   Get key s = (None, Some ("'" ++ key ++ "' is undefined")) /\ MustGet key s = None).
Proof.
  unfold Get, MustGet. split; [|split].
  - intros v ->. done.
  - intros v c fuel Ho Hg. rewrite Ho, Hg. do 2 (split; [done|]).
    rewrite executeWithContext_S. apply loop_single_Next. simpl. by rewrite Ho.
  - intros -> ->. done.
Qed.

(** ** Assignment *)

Lemma vm_Set_ObjectSpace name v s :
  set_ObjectSpace (<[name := v]> (ObjectSpace s)) s = vm_Set name v s.
Proof. reflexivity. Qed.

(** X9: an assignment to a bare name whose right-hand side evaluates
    without error binds the name in the object space to the value, nil
    included; the assignment itself has no value; a bare reference that
    follows reads the value back, and the global of the same name is not
    affected. *)
Theorem bare_assignment_binds fuel name rhs context v s s1 :
  executeWithContext fuel [rhs] context s = Ret (v, None) s1 ->
  executeWithContext (S fuel) [Assignment (BareReference name) rhs] context s
  = Ret (None, None) (vm_Set name v s1) /\
  executeWithContext (S fuel) [Assignment (BareReference name) rhs; BareReference name]
    context s
  = Ret (v, None) (vm_Set name v s1) /\
  executeWithContext (S fuel) [Assignment (BareReference name) rhs; GlobalVariable name]
    context s
  = Ret (map_get (CurrentGlobals s1) name, None) (vm_Set name v s1).
Proof.
  intros H. rewrite !executeWithContext_S. unfold loop. simpl. rewrite H. simpl.
  rewrite lookup_insert_eq, run_defers_0. done.
Qed.

(** X10: an assignment to a global whose right-hand side evaluates without
    error binds the global to the value; the assignment itself has no value;
    a global reference that follows reads the value back, and the bare name
    of the same spelling is not defined by it: if it was unbound, a bare
    reference to it still fails with a NameError. *)
Theorem global_assignment_binds fuel name rhs c v s s1 :
  executeWithContext fuel [rhs] (Some c) s = Ret (v, None) s1 ->
  let s2 := set_CurrentGlobals (<[name := v]> (CurrentGlobals s1)) s1 in
  executeWithContext (S fuel) [Assignment (GlobalVariable name) rhs] (Some c) s
  = Ret (None, None) s2 /\
  executeWithContext (S fuel) [Assignment (GlobalVariable name) rhs; GlobalVariable name]
    (Some c) s
  = Ret (v, None) s2 /\
  (ObjectSpace s1 !! name = None ->
   executeWithContext (S fuel) [Assignment (GlobalVariable name) rhs; BareReference name]
     (Some c) s
   = Ret (None, Some (name_error name c s2)) s2).
Proof.
  intros H s2. rewrite !executeWithContext_S. unfold loop. simpl. rewrite H. simpl.
  unfold map_get. rewrite lookup_insert_eq, run_defers_0. fold s2.
  do 2 (split; [done|]). intros ->. done.
Qed.

(** X11: an assignment whose right-hand side fails binds nothing and ends
    the sequence at once: the result is nil with the error of the right-hand
    side, in the state that evaluation left, whatever the target of the
    assignment is and whatever statements follow. *)
Theorem assignment_fails_with_its_right_hand_side fuel lhs rhs rest context v err s s1 :
  executeWithContext fuel [rhs] context s = Ret (v, Some err) s1 ->
  executeWithContext (S fuel) (Assignment lhs rhs :: rest) context s
  = Ret (None, Some err) s1.
Proof.
  intros H. rewrite executeWithContext_S. unfold loop. simpl. rewrite H. simpl.
  by rewrite run_defers_0.
Qed.

(** ** Sequences *)


(** ** Call expressions *)

Lemma eval_args_app exec pre post context args s :
  eval_args exec (pre ++ post) context args s
  = match eval_args exec pre context args s with
    | Ret (inl args1) s1 => eval_args exec post context args1 s1
    | Ret (inr err) s1 => Ret (inr err) s1
    | Panic => Panic
    | OutOfFuel => OutOfFuel
    end.
Proof.
  revert args s. induction pre as [|a pre IH]; intros args s; simpl; [done|].
  destruct (exec [a] context s) as [[v [err|]] s1| |]; done.
Qed.

(** X13: a call whose receiver is nil (a target that evaluates to nil, or
    no target and a nil context) fails with a NoMethodError made with a new
    instance of the class Nil; the arguments are not evaluated, no frame is
    pushed and the statements that follow are not evaluated. *)
Theorem call_on_nil_is_NoMethodError fuel target Func Args rest context c s s1 :
  let nilValue s := (Class_New P c (world s)).1 in
  let made s := set_world (Class_New P c (world s)).2 s in
  (executeWithContext fuel [target] context s = Ret (None, None) s1 ->
   CurrentClasses s1 !! "Nil" = Some c ->
   executeWithContext (S fuel) (CallExpression (Some target) Func Args :: rest) context s
   = Ret (None, Some (no_method_error Func (nilValue s1) (made s1))) (made s1)) /\
  (CurrentClasses s !! "Nil" = Some c ->
   executeWithContext (S fuel) (CallExpression None Func Args :: rest) None s
   = Ret (None, Some (no_method_error Func (nilValue s) (made s))) (made s)).
Proof.
  intros nilValue made. split.
  - intros Ht Hc. rewrite executeWithContext_S. unfold loop. simpl. rewrite Ht.
    unfold call, new_instance. rewrite Hc. unfold nilValue, made.
    destruct (Class_New P c (world s1)). simpl. by rewrite run_defers_0.
  - intros Hc. rewrite executeWithContext_S. unfold loop. simpl.
    unfold new_instance. rewrite Hc. unfold nilValue, made.
    destruct (Class_New P c (world s)). simpl. by rewrite run_defers_0.
Qed.

(** X14: a call of a method that the receiver does not have fails with a
    NameError that names the method and the receiver, after a line about the
    receiver was printed; the method is looked up before the arguments are
    evaluated, so they never are, and the statements that follow are not
    evaluated either. *)
Theorem call_of_unknown_method_is_NameError fuel target Func Args rest context c s s1 :
  (Method_of P (world s) c Func = None ->
   executeWithContext (S fuel) (CallExpression None Func Args :: rest) (Some c) s
   = Ret (None, Some (name_error Func c s)) (log (Printf_name_error c) s)) /\
  (executeWithContext fuel [target] context s = Ret (Some c, None) s1 ->
   Method_of P (world s1) c Func = None ->
   executeWithContext (S fuel) (CallExpression (Some target) Func Args :: rest) context s
   = Ret (None, Some (name_error Func c s1)) (log (Printf_name_error c) s1)).
Proof.
  split.
  - intros Hm. rewrite executeWithContext_S. unfold loop. simpl. rewrite Hm. simpl.
    by rewrite run_defers_0.
  - intros Ht Hm. rewrite executeWithContext_S. unfold loop. simpl. rewrite Ht.
    unfold call. rewrite Hm. simpl. by rewrite run_defers_0.
Qed.

(** X15: when an argument of a call fails, the call fails with that
    error: the arguments after it are not evaluated, the method is not
    executed, no frame is pushed, and the statements that follow are not
    evaluated. *)
Theorem failing_argument_aborts_call fuel Func method pre a post rest c vals v err s s1 s2 :
  Method_of P (world s) c Func = Some method ->
  eval_args (executeWithContext fuel) pre (Some c) [] s = Ret (inl vals) s1 ->
  executeWithContext fuel [a] (Some c) s1 = Ret (v, Some err) s2 ->
  executeWithContext (S fuel) (CallExpression None Func (pre ++ a :: post) :: rest) (Some c) s
  = Ret (None, Some err) s2.
Proof.
  intros Hm Hpre Ha. rewrite executeWithContext_S. unfold loop. simpl. rewrite Hm.
  rewrite eval_args_app, Hpre. simpl. rewrite Ha. simpl. by rewrite run_defers_0.
Qed.

(** X16: a call whose method is found and whose arguments evaluate
    executes the method on the argument values, in order, under one new frame
    named after the method, and the call statement returns what the method
    returned, value and error alike, once the frame is popped. *)
Theorem call_executes_method_under_its_frame fuel Func Args method c vals r s s1 s2 :
  Method_of P (world s) c Func = Some method ->
  eval_args (executeWithContext fuel) Args (Some c) [] s = Ret (inl vals) s1 ->
  Execute (Run (executeWithContext fuel)) method vals
          (set_stack (Method_Name method :: stack s1) s1) = Ret r s2 ->
  executeWithContext (S fuel) [CallExpression None Func Args] (Some c) s
  = Ret r (set_stack (Shift (stack s2)) s2) /\
  stack s2 = Method_Name method :: stack s1.
Proof.
  intros Hm Hargs He. split.
  - rewrite executeWithContext_S. unfold loop. simpl. rewrite Hm, Hargs.
    unfold Unshift. rewrite He. by destruct r as [v [e|]].
  - pose proof (Execute_framed (Run (executeWithContext fuel)) method vals
                  (set_stack (Method_Name method :: stack s1) s1)
                  (Run_framed _ (executeWithContext_framed fuel))) as Hf.
    rewrite He in Hf. by destruct Hf as [_ Hst].
Qed.

(** ** puts *)




(** ** Program entry *)

Lemma set_stack_Shift_Unshift label s :
  set_stack (Shift (Unshift label (stack s))) s = s.
Proof. by destruct s. Qed.

(** X18: a top-level run of a text that does not parse returns nil and a
    ParseError that carries the current unit name, and a run of a text that
    parses to no statement returns nil and no error; both leave the machine
    exactly as it was. *)
Theorem Run_of_unparseable_or_empty_input fuel input s :
  (RubyParse P input = None ->
   vm_Run fuel input s = Ret (None, Some (ParseError (currentFilename s))) s) /\
  (RubyParse P input = Some [] ->
   vm_Run (S fuel) input s = Ret (None, None) s).
Proof.
  unfold vm_Run, Run. split; intros ->; [done|].
  rewrite executeWithContext_S. unfold loop. simpl.
  rewrite run_defers_0. simpl. by destruct s.
Qed.

(** ** require and parse errors *)

(** [require] of a unit whose file is found and whose contents do not
    parse. *)
Lemma require_unparseable exec fileName pre path post contents k s :
  String.eqb fileName "rubygems" = false ->
  Array_Members P (world s) (loadPath s) = Some (pre ++ Some (StringValue path) :: post)%list ->
  forallb (skipped (world s) fileName) pre = true ->
  Open_ok P (world s) (filepath_Join P path (fileName ++ ".rb")) = true ->
  ReadAll P (world s) (filepath_Join P path (fileName ++ ".rb")) = Some contents ->
  RubyParse P contents = None ->
  CurrentClasses s !! "True" = Some k ->
  exists v s',
    Execute (Run exec) (NewMethod "require" main_require) [Some (StringValue fileName)] s
    = Ret (Some v, Some (ParseError (filepath_Join P path (fileName ++ ".rb")))) s' /\
    currentFilename s' = currentFilename s /\ stack s' = stack s.
Proof.
  intros Hname Hmembers Hpre Hopen Hread Hparse Hclass.
  unfold Execute, require. simpl. rewrite Hname, Hmembers.
  rewrite require_search_found with (contents := contents) by done.
  unfold run_unit, Run. rewrite Hparse. unfold new_instance. simpl.
  rewrite CurrentClasses_probed, Hclass, world_probed.
  destruct (Class_New P k (world s)) as [v w]. eexists _, _. split; [done|]. simpl.
  by rewrite currentFilename_probed, stack_probed.
Qed.


(** X20: the parse error of a required unit cannot be rescued: a
    begin/rescue node whose body is the call of require panics, whatever its
    rescue clauses, because a ParseError is not a runtime value. *)
Theorem parse_error_of_required_unit_is_not_rescued
    fuel fileName pre path post contents clauses rest c k s :
  Method_of P (world s) c "require" = Some (NewMethod "require" main_require) ->
  String.eqb fileName "rubygems" = false ->
  Array_Members P (world s) (loadPath s) = Some (pre ++ Some (StringValue path) :: post)%list ->
  forallb (skipped (world s) fileName) pre = true ->
  Open_ok P (world s) (filepath_Join P path (fileName ++ ".rb")) = true ->
  ReadAll P (world s) (filepath_Join P path (fileName ++ ".rb")) = Some contents ->
  RubyParse P contents = None ->
  CurrentClasses s !! "True" = Some k ->
  executeWithContext (S (S (S fuel)))
    (Begin [CallExpression None "require" [SimpleString fileName]] clauses :: rest) (Some c) s
  = Panic.
Proof.
  intros Hm Hname Hmembers Hpre Hopen Hread Hparse Hclass.
  destruct (require_unparseable (executeWithContext (S fuel)) fileName pre path post contents k
              (set_stack (Unshift "require" (stack s)) s)) as (v & s' & He & _); try done.
  assert (executeWithContext (S (S fuel)) [CallExpression None "require" [SimpleString fileName]]
            (Some c) s
          = Ret (Some v, Some (ParseError (filepath_Join P path (fileName ++ ".rb"))))
                (run_defers 1 s')) as Hbody.
  { rewrite executeWithContext_S. unfold loop. cbn [iterate step call]. rewrite Hm.
    cbn [eval_args]. rewrite executeWithContext_S. unfold loop. cbn [iterate step].
    rewrite run_defers_0. cbn [Method_Name app]. unfold NewString. rewrite He. done. }
  rewrite executeWithContext_S. unfold loop. cbn [iterate step]. by rewrite Hbody.
Qed.

(** ** Failures inside rescue clauses *)

(** X21: when the body of a begin/rescue node fails and the body of the
    clause that matches fails too, the clauses after it are still compared
    with the error of the body, not with the new error: if none of them names
    the error of the body, the error of the clause propagates, even past a
    clause that names it. *)
Theorem failure_in_rescue_body_is_not_rescued
    fuel body cbody rest context bv cv rubyErr err1 s s1 s2 :
  executeWithContext fuel body context s = Ret (bv, Some (RubyError rubyErr)) s1 ->
  executeWithContext fuel cbody context s1 = Ret (cv, Some err1) s2 ->
  forallb (passes_over (world s2) rubyErr) rest = true ->
  executeWithContext (S fuel)
    [Begin body (Rescue (Value_String (world s1) rubyErr) cbody :: rest)] context s
  = Ret (None, Some err1) s2.
Proof.
  intros Hbody Hc Hrest. rewrite executeWithContext_S. apply loop_single_Next.
  eapply step_Begin_unrescued; [done|]. simpl.
  rewrite String.eqb_refl, Hc. by apply rescue_loop_all_passed_over.
Qed.

(** ** Programs without calls *)

Section Quiet.
Variable exec : list Node -> option Value -> vm -> Outcome Result.
Hypothesis Hexec :
  forall statements context s r s',
    forallb call_free statements = true ->
    exec statements context s = Ret r s' -> trace s' = trace s.

Lemma trace_new_instance name s v s1 :
  new_instance name s = Some (v, s1) -> trace s1 = trace s.
Proof.
  unfold new_instance. destruct (CurrentClasses s !! name); [|done].
  destruct (Class_New _ _ _). by intros [= _ <-].
Qed.

Lemma rescue_loop_quiet rubyErr clauses context err e s s' :
  forallb call_free clauses = true ->
  rescue_loop exec rubyErr clauses context err s = Ret e s' -> trace s' = trace s.
Proof using Hexec.
  revert err s. induction clauses as [|c clauses IH]; intros err s; simpl.
  { intros _ [= _ <-]. done. }
  intros [Hc Hcs]%andb_prop. destruct c as [| | | | | | | | | | | | | |cls cbody|]; try done.
  simpl in Hc. destruct (String.eqb _ _); [|by apply IH].
  destruct (exec cbody context s) as [[v [err1|]] s1| |] eqn:He; try done.
  - intros H. rewrite (IH _ _ Hcs H). exact (Hexec _ _ _ _ _ Hc He).
  - intros [= _ <-]. exact (Hexec _ _ _ _ _ Hc He).
Qed.

Lemma step_quiet statement context rv re s :
  call_free statement = true ->
  match step exec statement context rv re s with
  | Next _ _ _ s1 | Return _ _ _ s1 => trace s1 = trace s
  | _ => True
  end.
Proof using Hexec.
  destruct statement
    as [cond body els|name|str|str|b|name|n|f|name|name|target func args|lhs rhs|
        |body clauses|cls body|kind];
    simpl; try done.
  - (* IfBlock *)
    intros [Hb He]%andb_prop.
    destruct (exec _ context s) as [[v e] s1| |] eqn:Hx; try done.
    eapply Hexec; [|exact Hx]. by destruct (truthy cond).
  - (* FuncDecl *)
    by destruct (map_get _ _).
  - (* Boolean *)
    destruct (new_instance _ s) as [[v s1]|] eqn:Hnew; [|done].
    intros _. by eapply trace_new_instance.
  - (* Symbol *)
    by destruct (CurrentSymbols s !! name).
  - (* BareReference *)
    destruct (ObjectSpace s !! name); [done|]. by destruct context.
  - (* Assignment *)
    intros Hr. destruct (exec [rhs] context s) as [[v [err|]] s1| |] eqn:Hx; try done.
    + eapply Hexec; [|exact Hx]. simpl. by rewrite Hr.
    + assert (trace s1 = trace s) as Ht.
      { eapply Hexec; [|exact Hx]. simpl. by rewrite Hr. }
      by destruct lhs.
  - (* Begin *)
    intros [Hb Hc]%andb_prop.
    destruct (exec body context s) as [[v [[f|rubyErr]|]] s1| |] eqn:Hx; try done.
    + assert (trace s1 = trace s) as Ht by exact (Hexec _ _ _ _ _ Hb Hx).
      destruct (rescue_loop _ _ _ _ _ _) as [[err1|] s2| |] eqn:Hr; try done;
        rewrite <- Ht; exact (rescue_loop_quiet _ _ _ _ _ _ _ Hc Hr).
    + exact (Hexec _ _ _ _ _ Hb Hx).
Qed.

Lemma iterate_quiet statements context rv re d s :
  forallb call_free statements = true ->
  match iterate exec statements context rv re d s with
  | Next _ _ _ s1 | Return _ _ _ s1 => trace s1 = trace s
  | _ => True
  end.
Proof using Hexec.
  revert rv re d s. induction statements as [|st rest IH]; intros rv re d s; simpl; [done|].
  intros [Hst Hrest]%andb_prop.
  pose proof (step_quiet st context rv re s Hst) as Hs.
  destruct (step _ _ _ _ _ _) as [v e d1 s1|v e d1 s1| |]; try done.
  specialize (IH v e (d1 + d) s1 Hrest).
  destruct (iterate _ _ _ _ _ _ _); try done; congruence.
Qed.

End Quiet.

(** X22: a program in which no call expression occurs, at any depth,
    performs no effect on the outside world: whatever it evaluates to, no
    file is opened or read and nothing is written. *)
Theorem programs_without_calls_have_no_effects fuel statements context r s s' :
  forallb call_free statements = true ->
  executeWithContext fuel statements context s = Ret r s' ->
  trace s' = trace s.
Proof.
  revert statements context s r s'.
  induction fuel as [|fuel IH]; intros statements context s r s' Hfree; simpl; [done|].
  unfold loop. pose proof (iterate_quiet _ IH statements context None None 0 s Hfree) as Hq.
  destruct (iterate _ _ _ _ _ _ _); try done; by intros [= _ <-].
Qed.

End More.

(** * Concrete runs *)

#[local] Existing Instance host.

Example main_is_an_object : main = Some (ObjectValue 10).
Proof. reflexivity. Qed.

Example searching_members :
  Array_Members host (world searching) (loadPath searching)
  = Some [Some (StringValue "/a"); Some (StringValue "/b")].
Proof. reflexivity. Qed.

(** C4 (the code departs from the claim): the frame pushed for a call is
    not popped when the method returns but when the enclosing sequence has
    been evaluated.  In the run of [puts 'hello'; undefined] the method puts
    has written its line and returned when the bare reference is evaluated,
    and the backtrace of the NameError still starts with the frame puts. *)
Theorem call_frame_outlives_call :
  vm_Run 2 "puts 'hello'; undefined" booted
  = Ret (None,
         Some (RubyError (NameError "undefined" "#<Object>" "Object"
                            (CallStack_String ["puts"; "main"]))))
        (log (Stdout_Write "hello
") booted).
Proof. vm_compute. reflexivity. Qed.

(** The claim of C2 fails on the value: the rescue body evaluates to the
    string "rescued"; the begin node that it rescues evaluates to nil, not to
    that string. *)
Lemma begin_drops_rescue_value :
  executeWithContext 1 [SimpleString "rescued"] main booted
  = Ret (Some (StringValue "rescued"), None) booted /\
  executeWithContext 2
    [Begin [BareReference "undefined"] [Rescue "NameError" [SimpleString "rescued"]]]
    main booted
  = Ret (None, None) booted /\
  ~ (exists s',
       executeWithContext 2
         [Begin [BareReference "undefined"] [Rescue "NameError" [SimpleString "rescued"]]]
         main booted
       = Ret (Some (StringValue "rescued"), None) s').
Proof.
  assert (executeWithContext 2
    [Begin [BareReference "undefined"] [Rescue "NameError" [SimpleString "rescued"]]]
    main booted = Ret (None, None) booted) as H by (vm_compute; reflexivity).
  split; [vm_compute; reflexivity|]. split; [exact H|].
  intros [s' H']. rewrite H in H'. discriminate H'.
Qed.


(** The claim of C9 fails on a later if/else node: it succeeds, and the
    NameError of the earlier bare reference is gone from the result. *)
Lemma later_if_clears_name_error :
  executeWithContext 2
    [BareReference "undefined"; IfBlock (Boolean true) [SimpleString "x"] []] main booted
  = Ret (Some (StringValue "x"), None) booted /\
  ~ (exists v s',
       executeWithContext 2
         [BareReference "undefined"; IfBlock (Boolean true) [SimpleString "x"] []]
         main booted
       = Ret (v, Some (name_error "undefined" (ObjectValue 10) booted)) s').
Proof.
  assert (executeWithContext 2
    [BareReference "undefined"; IfBlock (Boolean true) [SimpleString "x"] []] main booted
    = Ret (Some (StringValue "x"), None) booted) as H by (vm_compute; reflexivity).
  split; [exact H|]. intros (v & s' & H'). rewrite H in H'. discriminate H'.
Qed.

(** ** The theorems at work on the concrete machine *)


(** The fresh machine has the class False registered. *)
Lemma require_rubygems_witness :
  CurrentClasses booted !! "False" = Some (ObjectValue 4) /\
  exists v s',
    Execute (vm_Run 0) (NewMethod "require" main_require)
            [Some (StringValue "rubygems")] booted = Ret (Some v, None) s' /\
    (v, world s') = Class_New host (ObjectValue 4) (world booted) /\
    s' = set_world (world s') booted /\
    trace s' = trace booted.
Proof.
  split; [reflexivity|].
  apply (require_rubygems (vm_Run 0) [] (ObjectValue 4) booted). reflexivity.
Defined.

(** require called with the integer 1. *)
Lemma require_without_string_panics_witness :
  starts_with_string [Some (IntValue 1)] = false /\
  Execute (vm_Run 1) (NewMethod "require" main_require) [Some (IntValue 1)] booted = Panic.
Proof.
  split; [reflexivity|].
  apply (require_without_string_panics (vm_Run 1) [Some (IntValue 1)] booted). reflexivity.
Defined.

(** An unbound name followed by a string literal. *)
Lemma name_error_does_not_end_sequence_witness :
  ObjectSpace booted !! "undefined" = None /\
  executeWithContext 1 [BareReference "undefined"; SimpleString "x"] main booted
  = Ret (Some (StringValue "x"),
         Some (RubyError (NameError "undefined" "#<Object>" "Object" ""))) booted.
Proof.
  split; [reflexivity|].
  destruct (name_error_does_not_end_sequence 0 "undefined" (ObjectValue 10)
              [SimpleString "x"] booted) as [_ H]; [reflexivity|].
  apply H; reflexivity.
Defined.

(** A body that fails with a NameError, rescued by the second of three
    clauses; and the same body with only a clause that does not match. *)
Lemma begin_rescue_witness :
  executeWithContext 1 [BareReference "undefined"] main booted
  = Ret (None, Some (RubyError (NameError "undefined" "#<Object>" "Object" ""))) booted /\
  executeWithContext 2
    [Begin [BareReference "undefined"]
       [Rescue "LoadError" []; Rescue "NameError" [SimpleString "rescued"];
        Rescue "NameError" [Unhandled "never evaluated"]]] main booted
  = Ret (None, None) booted /\
  executeWithContext 2 [Begin [BareReference "undefined"] [Rescue "LoadError" []]] main booted
  = Ret (None, Some (RubyError (NameError "undefined" "#<Object>" "Object" ""))) booted.
Proof.
  destruct (begin_rescue 1 [BareReference "undefined"] [Rescue "LoadError" []] main None
              (NameError "undefined" "#<Object>" "Object" "")
              (RubyError (NameError "undefined" "#<Object>" "Object" ""))
              booted booted booted)
    as (Hr & Hu & _); [reflexivity | reflexivity |].
  split; [reflexivity|]. split; [|exact Hu].
  apply (Hr [SimpleString "rescued"] [Rescue "NameError" [Unhandled "never evaluated"]]
            (Some (StringValue "rescued")) booted).
  reflexivity.
Defined.



(** The symbol a, evaluated twice in the fresh machine. *)
Lemma symbol_interning_witness :
  interned booted /\
  exists v s1,
    executeWithContext 1 [Symbol "a"] main booted = Ret (Some v, None) s1 /\
    CurrentSymbols s1 !! "a" = Some (Some v) /\
    executeWithContext 1 [Symbol "a"] main s1 = Ret (Some v, None) s1.
Proof.
  pose proof (interned_NewVM "main.rb") as Hin. split; [exact Hin|].
  destruct (symbol_interning 0 "a" main booted Hin) as (v & s1 & Hev & Hs & _ & Hl & _).
  exists v, s1. split; [exact Hev|]. split; [exact Hs|].
  apply Hl. apply later_now.
Defined.

(** ** The further properties at work on the concrete machines *)

(** puts called on one string: the frame puts is gone when it returns. *)
Lemma returning_calls_restore_the_call_stack_witness :
  (exists r,
     executeWithContext 2 [CallExpression None "puts" [SimpleString "hello"]] main booted
     = Ret r (log (Stdout_Write "hello
") booted)) /\
  stack (log (Stdout_Write "hello
") booted) = stack booted.
Proof.
  split; [eexists; vm_compute; reflexivity|].
  destruct (returning_calls_restore_the_call_stack 2
              [CallExpression None "puts" [SimpleString "hello"]] main ""
              (NewMethod "to_s" main_to_s) [] booted) as (H & _ & _).
  apply (H (None, None)). vm_compute. reflexivity.
Defined.

(** The same run keeps the unit name, the classes and the load path. *)
Lemma returning_calls_keep_unit_classes_and_load_path_witness :
  vm_Run 2 "puts 'hello'; undefined" booted
  = Ret (None, Some (RubyError (NameError "undefined" "#<Object>" "Object"
                                  (CallStack_String ["puts"; "main"]))))
        (log (Stdout_Write "hello
") booted) /\
  currentFilename (log (Stdout_Write "hello
") booted) = "main.rb" /\
  loadPath (log (Stdout_Write "hello
") booted) = loadPath booted.
Proof.
  assert (vm_Run 2 "puts 'hello'; undefined" booted
          = Ret (None, Some (RubyError (NameError "undefined" "#<Object>" "Object"
                                          (CallStack_String ["puts"; "main"]))))
                (log (Stdout_Write "hello
") booted)) as Hrun by (vm_compute; reflexivity).
  split; [exact Hrun|].
  destruct (returning_calls_keep_unit_classes_and_load_path 2 [] main
              "puts 'hello'; undefined" booted) as [_ H].
  destruct (H _ _ Hrun) as (Hn & _ & Hl). split; [exact Hn | exact Hl].
Defined.

(** The symbol a is still in the table after b was evaluated. *)
Lemma symbol_table_only_grows_witness :
  CurrentSymbols two_symbols !! "a" = Some (Some (SymbolValue 0 "a")) /\
  CurrentSymbols
    (state_of (executeWithContext 1 [Symbol "c"] main two_symbols)) !! "a"
  = Some (Some (SymbolValue 0 "a")).
Proof.
  split; [reflexivity|].
  apply (symbol_table_only_grows 1 [Symbol "c"] main (Some (SymbolValue 2 "c"), None)
           two_symbols); reflexivity.
Defined.

Lemma later_two_symbols : later booted two_symbols.
Proof.
  apply (later_evaluation 1 [Symbol "a"; Symbol "b"] main (Some (SymbolValue 1 "b"), None)
           booted two_symbols two_symbols); [reflexivity | apply later_now].
Defined.

(** The symbols a and b of the machine that evaluated both. *)
Lemma reachable_symbols_identity_is_name_equality_witness :
  later booted two_symbols /\
  exists addr1 addr2,
    Some (SymbolValue 0 "a") = Some (SymbolValue addr1 "a") /\
    Some (SymbolValue 1 "b") = Some (SymbolValue addr2 "b") /\
    (addr1 = addr2 <-> "a" = "b").
Proof.
  split; [exact later_two_symbols|].
  apply (reachable_symbols_identity_is_name_equality "main.rb" two_symbols "a" "b"
           (Some (SymbolValue 0 "a")) (Some (SymbolValue 1 "b")) later_two_symbols);
    reflexivity.
Defined.


(** The class table of that machine, and the literal true in it. *)
Lemma reachable_class_table_witness :
  later booted two_symbols /\
  CurrentClasses two_symbols !! "True" = Some (ObjectValue 3) /\
  exists c,
    CurrentClasses two_symbols !! "True" = Some c /\
    executeWithContext 1 [Boolean true] main two_symbols
    = Ret (Some (Class_New host c (world two_symbols)).1, None)
          (set_world (Class_New host c (world two_symbols)).2 two_symbols).
Proof.
  split; [exact later_two_symbols|]. split; [reflexivity|].
  destruct (reachable_class_table "main.rb" two_symbols later_two_symbols) as [_ H].
  exact (H 0 true main).
Defined.

(** Binding x leaves the key main where it was. *)
Lemma Set_then_Get_witness :
  "main" <> "x" /\
  Get "x" (vm_Set "x" (Some (IntValue 1)) booted) = (Some (IntValue 1), None) /\
  Get "main" (vm_Set "x" (Some (IntValue 1)) booted) = (Some (ObjectValue 10), None).
Proof.
  destruct (Set_then_Get "x" "main" (Some (IntValue 1)) 0 main booted)
    as (Hget & _ & _ & Hother & _).
  split; [discriminate|]. split; [exact Hget|].
  destruct Hother as [-> _]; [discriminate | reflexivity].
Defined.

(** In the fresh machine LOAD_PATH is a global only, Object is in the object
    space, and nothing is called x. *)
Lemma Get_lookup_order_witness :
  (ObjectSpace booted !! "Object" = Some (Some (ObjectValue 1)) /\
   Get "Object" booted = (Some (ObjectValue 1), None)) /\
  (ObjectSpace booted !! "LOAD_PATH" = None /\
   CurrentGlobals booted !! "LOAD_PATH" = Some (Some (ObjectValue 6)) /\
   Get "LOAD_PATH" booted = (Some (ObjectValue 6), None) /\
   executeWithContext 1 [BareReference "LOAD_PATH"] main booted
   = Ret (None, Some (RubyError (NameError "LOAD_PATH" "#<Object>" "Object" ""))) booted) /\
  (CurrentGlobals booted !! "x" = None /\
   Get "x" booted = (None, Some "'x' is undefined")).
Proof.
  destruct (Get_lookup_order "Object" booted) as (H1 & _ & _).
  destruct (Get_lookup_order "LOAD_PATH" booted) as (_ & H2 & _).
  destruct (Get_lookup_order "x" booted) as (_ & _ & H3).
  split; [split; [reflexivity | apply (H1 (Some (ObjectValue 1))); reflexivity]|].
  split.
  - destruct (H2 (Some (ObjectValue 6)) (ObjectValue 10) 0) as (Hg & _ & He);
      [reflexivity | reflexivity |].
    split; [reflexivity|]. split; [reflexivity|]. split; [exact Hg | exact He].
  - split; [reflexivity|]. destruct H3 as [Hg _]; [reflexivity | reflexivity | exact Hg].
Defined.

(** x = 1 in the fresh machine. *)
Lemma bare_assignment_binds_witness :
  executeWithContext 1 [ConstantInt 1] main booted = Ret (Some (IntValue 1), None) booted /\
  executeWithContext 2 [Assignment (BareReference "x") (ConstantInt 1)] main booted
  = Ret (None, None) (vm_Set "x" (Some (IntValue 1)) booted) /\
  executeWithContext 2 [Assignment (BareReference "x") (ConstantInt 1); BareReference "x"]
    main booted
  = Ret (Some (IntValue 1), None) (vm_Set "x" (Some (IntValue 1)) booted).
Proof.
  destruct (bare_assignment_binds 1 "x" (ConstantInt 1) main (Some (IntValue 1)) booted booted)
    as (H1 & H2 & _); [reflexivity|].
  split; [reflexivity|]. split; [exact H1 | exact H2].
Defined.

(** $x = 2 in the fresh machine, where the bare name x is unbound. *)
Lemma global_assignment_binds_witness :
  (executeWithContext 1 [ConstantInt 2] main booted = Ret (Some (IntValue 2), None) booted /\
   ObjectSpace booted !! "x" = None) /\
  executeWithContext 2 [Assignment (GlobalVariable "x") (ConstantInt 2); GlobalVariable "x"]
    main booted
  = Ret (Some (IntValue 2), None)
        (set_CurrentGlobals (<["x" := Some (IntValue 2)]> (CurrentGlobals booted)) booted) /\
  executeWithContext 2 [Assignment (GlobalVariable "x") (ConstantInt 2); BareReference "x"]
    main booted
  = Ret (None, Some (RubyError (NameError "x" "#<Object>" "Object" "")))
        (set_CurrentGlobals (<["x" := Some (IntValue 2)]> (CurrentGlobals booted)) booted).
Proof.
  destruct (global_assignment_binds 1 "x" (ConstantInt 2) (ObjectValue 10) (Some (IntValue 2))
              booted booted) as (_ & H2 & H3); [reflexivity|].
  split; [split; reflexivity|]. split; [exact H2 | apply H3; reflexivity].
Defined.

(** x = undefined, followed by a statement that would panic. *)
Lemma assignment_fails_with_its_right_hand_side_witness :
  executeWithContext 1 [BareReference "undefined"] main booted
  = Ret (None, Some (RubyError (NameError "undefined" "#<Object>" "Object" ""))) booted /\
  executeWithContext 2
    [Assignment (BareReference "x") (BareReference "undefined"); Unhandled "not reached"]
    main booted
  = Ret (None, Some (RubyError (NameError "undefined" "#<Object>" "Object" ""))) booted.
Proof.
  split; [reflexivity|].
  apply (assignment_fails_with_its_right_hand_side 1 (BareReference "x")
           (BareReference "undefined") [Unhandled "not reached"] main None).
  reflexivity.
Defined.

(** $unset.size in the fresh machine. *)
Lemma call_on_nil_is_NoMethodError_witness :
  (executeWithContext 1 [GlobalVariable "unset"] main booted = Ret (None, None) booted /\
   CurrentClasses booted !! "Nil" = Some (ObjectValue 5)) /\
  exists s',
    executeWithContext 2
      [CallExpression (Some (GlobalVariable "unset")) "size" [Unhandled "not reached"]]
      main booted
    = Ret (None, Some (RubyError (NoMethodError "size" "#<Nil>" "Nil" ""))) s'.
Proof.
  destruct (call_on_nil_is_NoMethodError 1 (GlobalVariable "unset") "size"
              [Unhandled "not reached"] [] main (ObjectValue 5) booted booted) as [H _].
  split; [split; reflexivity|]. eexists. apply H; reflexivity.
Defined.

(** main has no method frobnicate. *)
Lemma call_of_unknown_method_is_NameError_witness :
  Method_of host (world booted) (ObjectValue 10) "frobnicate" = None /\
  executeWithContext 1 [CallExpression None "frobnicate" [Unhandled "not reached"]] main booted
  = Ret (None, Some (RubyError (NameError "frobnicate" "#<Object>" "Object" "")))
        (log (Printf_name_error (ObjectValue 10)) booted).
Proof.
  destruct (call_of_unknown_method_is_NameError 0 (Unhandled "no target") "frobnicate"
              [Unhandled "not reached"] [] main (ObjectValue 10) booted booted) as [H _].
  split; [reflexivity|]. apply H. reflexivity.
Defined.

(** puts 'a', undefined, 'b': nothing is written. *)
Lemma failing_argument_aborts_call_witness :
  Method_of host (world booted) (ObjectValue 10) "puts" = Some (NewMethod "puts" main_puts) /\
  executeWithContext 2
    [CallExpression None "puts" [SimpleString "a"; BareReference "undefined"; SimpleString "b"]]
    main booted
  = Ret (None, Some (RubyError (NameError "undefined" "#<Object>" "Object" ""))) booted.
Proof.
  split; [reflexivity|].
  apply (failing_argument_aborts_call 1 "puts" (NewMethod "puts" main_puts)
           [SimpleString "a"] (BareReference "undefined") [SimpleString "b"] []
           (ObjectValue 10) [Some (StringValue "a")] None
           (RubyError (NameError "undefined" "#<Object>" "Object" "")) booted booted booted);
    reflexivity.
Defined.

(** to_s called on main. *)
Lemma call_executes_method_under_its_frame_witness :
  Method_of host (world booted) (ObjectValue 10) "to_s" = Some (NewMethod "to_s" main_to_s) /\
  executeWithContext 1 [CallExpression None "to_s" []] main booted
  = Ret (Some (StringValue "main"), None) booted.
Proof.
  split; [reflexivity|].
  destruct (call_executes_method_under_its_frame 0 "to_s" [] (NewMethod "to_s" main_to_s)
              (ObjectValue 10) [] (Some (StringValue "main"), None) booted booted
              (set_stack ["to_s"] booted)) as [H _];
    [reflexivity | reflexivity | reflexivity |].
  exact H.
Defined.

(** The grammar of the first machine has no statements for the text
    "nonsense". *)
Lemma Run_of_unparseable_or_empty_input_witness :
  RubyParse host "nonsense" = None /\
  vm_Run 1 "nonsense" booted = Ret (None, Some (ParseError "main.rb")) booted.
Proof.
  split; [reflexivity|].
  destruct (Run_of_unparseable_or_empty_input 1 "nonsense" booted) as [H _].
  apply H. reflexivity.
Defined.


(** begin require 'bad' rescue ParseError ... end in the second machine. *)
Lemma parse_error_of_required_unit_is_not_rescued_witness :
  (Method_of broken (world broken_searching) (ObjectValue 10) "require"
   = Some (NewMethod "require" main_require) /\
   RubyParse broken "def" = None) /\
  @executeWithContext broken 3
    [Begin [CallExpression None "require" [SimpleString "bad"]]
       [Rescue "ParseError" [SimpleString "rescued"]]]
    (Some (ObjectValue 10)) broken_searching
  = Panic.
Proof.
  split; [split; reflexivity|].
  apply (@parse_error_of_required_unit_is_not_rescued broken 0 "bad" [] "/lib" [] "def"
           [Rescue "ParseError" [SimpleString "rescued"]] [] (ObjectValue 10) (ObjectValue 3)
           broken_searching); reflexivity.
Defined.

(** A rescue body that calls a method main does not have: neither the
    clause named NameError nor any other rescues its failure. *)
Lemma failure_in_rescue_body_is_not_rescued_witness :
  executeWithContext 2 [CallExpression (Some (GlobalVariable "unset")) "size" []] main booted
  = Ret (None, Some (RubyError (NoMethodError "size" "#<Nil>" "Nil" "")))
        (state_of (executeWithContext 2
                     [CallExpression (Some (GlobalVariable "unset")) "size" []] main booted)) /\
  exists s',
    executeWithContext 3
      [Begin [CallExpression (Some (GlobalVariable "unset")) "size" []]
         [Rescue "NoMethodError" [BareReference "undefined"];
          Rescue "NameError" [SimpleString "not reached"]]] main booted
    = Ret (None, Some (RubyError (NameError "undefined" "#<Object>" "Object" ""))) s'.
Proof.
  split; [reflexivity|]. eexists.
  apply (failure_in_rescue_body_is_not_rescued 2
           [CallExpression (Some (GlobalVariable "unset")) "size" []]
           [BareReference "undefined"] [Rescue "NameError" [SimpleString "not reached"]]
           main None None (NoMethodError "size" "#<Nil>" "Nil" "")
           (RubyError (NameError "undefined" "#<Object>" "Object" "")) booted
           (state_of (executeWithContext 2
                        [CallExpression (Some (GlobalVariable "unset")) "size" []] main booted)));
    reflexivity.
Defined.

(** A program of literals, an assignment, a conditional and a begin block. *)
Lemma programs_without_calls_have_no_effects_witness :
  forallb call_free
    [Assignment (BareReference "x") (ConstantInt 1);
     IfBlock (Boolean true) [Symbol "a"] [];
     Begin [BareReference "undefined"] [Rescue "NameError" [SimpleString "rescued"]]]
  = true /\
  trace (state_of (executeWithContext 2
    [Assignment (BareReference "x") (ConstantInt 1);
     IfBlock (Boolean true) [Symbol "a"] [];
     Begin [BareReference "undefined"] [Rescue "NameError" [SimpleString "rescued"]]]
    main booted))
  = trace booted.
Proof.
  split; [reflexivity|].
  apply (programs_without_calls_have_no_effects 2
           [Assignment (BareReference "x") (ConstantInt 1);
            IfBlock (Boolean true) [Symbol "a"] [];
            Begin [BareReference "undefined"] [Rescue "NameError" [SimpleString "rescued"]]]
           main (Some (SymbolValue 0 "a"), None) booted); reflexivity.
Defined.
